(** * CTA bus tracker: the selection cascade of [BusView]

    A shallow embedding of the React component [BusView] (with its helpers
    [formatTime] and [FitBounds]) and the properties of its dependent-query
    state machine.

    Layout:
    - [JS]       the fragment of JavaScript values and string builtins the
                 component relies on;
    - [Format]   [formatTime];
    - [Viewport] the [FitBounds] effect;
    - [BusView]  the component state, its handlers, effects and promise
                 callbacks as a transition system over in-flight requests. *)

From Stdlib Require Import Ascii String ZArith QArith.
From stdpp Require Import base strings list gmap fin_maps pretty.

#[local] Open Scope string_scope.
#[local] Open Scope list_scope.
#[local] Open Scope Z_scope.

(* ===================================================================== *)
(** ** JavaScript values *)
(* ===================================================================== *)

Module JS.

(** Values that reach the component: parsed JSON bodies ([res.data]) plus
    [undefined], the result of reading an absent property.  JSON numbers are
    finite, so a number carries its rational value; objects map property
    names to values. *)
#[warnings="-register-all"] Inductive JSValue : Type :=
| JUndefined
| JNull
| JBool (b : bool)
| JNum (q : Q)
| JStr (s : string)
| JArr (l : list JSValue)
| JObj (m : gmap string JSValue).

(** [ToBoolean]: the test behind [if (v)], [v || w] and [!v]. *)
Definition truthy (v : JSValue) : bool :=
  match v with
  | JUndefined | JNull => false
  | JBool b => b
  | JNum q => negb (Qeq_bool q 0)
  | JStr s => negb (String.eqb s "")
  | JArr _ | JObj _ => true
  end.

(** Truthiness of a string held in component state ([selectedRoute],
    [direction], [selectedStop]). *)
Definition nonempty (s : string) : bool := negb (String.eqb s "").

(** [v || w] *)
Definition or_else (v w : JSValue) : JSValue := if truthy v then v else w.

(** Outcome of code that may throw: reading a property of [undefined] or
    [null] raises a [TypeError], and library calls raise their own errors.
    The callers only distinguish a value from an exception. *)
Inductive Throws (A : Type) : Type :=
| Ok (a : A)
| Throw.
Arguments Ok {A} a.
Arguments Throw {A}.

#[global] Instance Throws_ret : MRet Throws := fun _ a => Ok a.
#[global] Instance Throws_bind : MBind Throws := fun _ _ k m =>
  match m with
  | Ok a => k a
  | Throw => Throw
  end.

(** [v[k]] for the data keys the component reads ('bustime-response',
    'routes', 'directions', 'stops', 'vehicle', 'prd', 'lat', 'lon'): none of
    them is a property of a primitive wrapper or of [Array.prototype], so
    only an object can hold one, and every other non-nullish base yields
    [undefined]. *)
Definition get (v : JSValue) (k : string) : Throws JSValue :=
  match v with
  | JUndefined | JNull => Throw
  | JObj m => Ok (default JUndefined (m !! k))
  | _ => Ok JUndefined
  end.

(** [v?.[k]] *)
Definition get_opt (v : JSValue) (k : string) : JSValue :=
  match get v k with
  | Ok w => w
  | Throw => JUndefined
  end.

(** [Array.isArray(v)] *)
Definition isArray (v : JSValue) : bool :=
  match v with
  | JArr _ => true
  | _ => false
  end.

(** The empty array literal [[]]. *)
Definition empty : JSValue := JArr [].

(** *** Strings *)

(** [contains c s]: the character [c] occurs in [s]. *)
Fixpoint contains (c : ascii) (s : string) : bool :=
  match s with
  | EmptyString => false
  | String d s' => Ascii.eqb d c || contains c s'
  end.

(** [s.split(sep)] for a one-character separator: all the pieces, in
    order; a string without the separator is returned whole. *)
Fixpoint split (sep : ascii) (s : string) : list string :=
  match s with
  | EmptyString => [EmptyString]
  | String c s' =>
      if Ascii.eqb c sep then EmptyString :: split sep s'
      else match split sep s' with
           | [] => [String c EmptyString]
           | p :: ps => String c p :: ps
           end
  end.

(** White space skipped by [parseInt] (the ASCII part of [StrWhiteSpaceChar];
    strings are byte strings here). *)
Definition is_space (c : ascii) : bool :=
  let n := nat_of_ascii c in
  (Nat.eqb n 32 || Nat.eqb n 9 || Nat.eqb n 10 || Nat.eqb n 11
   || Nat.eqb n 12 || Nat.eqb n 13)%bool.

Fixpoint skip_space (s : string) : string :=
  match s with
  | String c s' => if is_space c then skip_space s' else s
  | EmptyString => EmptyString
  end.

(** Value of a digit in the given radix (10 or 16). *)
Definition digit_val (radix : Z) (c : ascii) : option Z :=
  let n := Z.of_nat (nat_of_ascii c) in
  let v :=
    if (48 <=? n) && (n <=? 57) then Some (n - 48)
    else if (97 <=? n) && (n <=? 122) then Some (n - 87)
    else if (65 <=? n) && (n <=? 90) then Some (n - 55)
    else None in
  match v with
  | Some d => if d <? radix then Some d else None
  | None => None
  end.

(** Longest prefix of digits, accumulated left to right; [None] when the
    prefix is empty. *)
Fixpoint digits (radix : Z) (acc : option Z) (s : string) : option Z :=
  match s with
  | EmptyString => acc
  | String c s' =>
      match digit_val radix c with
      | Some d => digits radix (Some (default 0 acc * radix + d)) s'
      | None => acc
      end
  end.

(** [parseInt(s)] with no radix argument: leading white space, an optional
    sign, an optional [0x]/[0X] prefix selecting radix 16, then the longest
    prefix of digits.  [None] is [NaN].  The result is exact, as the
    JavaScript number is below 2^53. *)
Definition parseInt (s : string) : option Z :=
  let s1 := skip_space s in
  let '(sign, s2) :=
    match s1 with
    | String "-"%char r => (-1, r)
    | String "+"%char r => (1, r)
    | _ => (1, s1)
    end in
  let '(radix, s3) :=
    match s2 with
    | String "0"%char (String "x"%char r) => (16, r)
    | String "0"%char (String "X"%char r) => (16, r)
    | _ => (10, s2)
    end in
  match digits radix None s3 with
  | Some n => Some (sign * n)
  | None => None
  end.

(** [String(n)] for an integer-or-[NaN] number, as a template literal
    prints it. *)
Definition show_num (n : option Z) : string :=
  match n with
  | Some z => pretty z
  | None => "NaN"
  end.

(** A possibly [undefined] string inside a template literal. *)
Definition show_str (s : option string) : string :=
  match s with
  | Some x => x
  | None => "undefined"
  end.

End JS.

(* ===================================================================== *)
(** ** formatTime *)
(* ===================================================================== *)

Module Format.
Import JS.

(** [const formatTime = (timestamp) => { ... }].

    [[_, time] = timestamp.split(' ')] leaves [time] undefined when the
    timestamp has no space, and [time.split(':')] then throws.  [hour] is
    always defined, [minute] is undefined when [time] has no colon. *)
Definition formatTime (timestamp : string) : Throws string :=
  match split " "%char timestamp !! 1%nat with
  | None => Throw
  | Some time =>
      let hm := split ":"%char time in
      let hour := default "" (hm !! 0%nat) in
      let minute := hm !! 1%nat in
      let h := parseInt hour in
      let suffix :=
        match h with
        | Some z => if 12 <=? z then "PM" else "AM"
        | None => "AM"
        end in
      let formattedHour :=
        match h with
        | Some z => Some (if Z.rem z 12 =? 0 then 12 else Z.rem z 12)
        | None => None
        end in
      Ok (show_num formattedHour +:+ ":" +:+ show_str minute +:+ " " +:+ suffix)
  end.

End Format.

(* ===================================================================== *)
(** ** FitBounds *)
(* ===================================================================== *)

Module Viewport.
Import JS.

Section Fit.
(** Coordinates are the non-[NaN] numbers [parseFloat] produces, compared
    by [leb]; [parseFloat] returns [None] for [NaN]. *)
Context {coord : Type}.
Variable leb : coord -> coord -> bool.
Variable parseFloat : JSValue -> option coord.

Record LatLng := mkLatLng { lat : coord; lng : coord }.
Record LatLngBounds := mkBounds { southWest : LatLng; northEast : LatLng }.

(** [Math.min], [Math.max] *)
Definition cmin (a b : coord) : coord := if leb a b then a else b.
Definition cmax (a b : coord) : coord := if leb a b then b else a.

(** Leaflet's [new LatLng(lat, lng)], reached through [toLatLng] for a
    two-element array: it rejects [NaN]. *)
Definition toLatLng (p : option coord * option coord) : Throws LatLng :=
  match p with
  | (Some la, Some lo) => Ok (mkLatLng la lo)
  | _ => Throw
  end.

(** Leaflet's [LatLngBounds.extend] with a point: the first point sets
    both corners, later ones move the corners outwards. *)
Definition extend (b : option LatLngBounds) (p : LatLng) : LatLngBounds :=
  match b with
  | None => mkBounds p p
  | Some (mkBounds sw ne) =>
      mkBounds (mkLatLng (cmin (lat p) (lat sw)) (cmin (lng p) (lng sw)))
               (mkLatLng (cmax (lat p) (lat ne)) (cmax (lng p) (lng ne)))
  end.

(** [L.latLngBounds(latlngs)]: extends an empty bounds object by each
    point in turn ([None]: no corner set yet). *)
Fixpoint extendAll (b : option LatLngBounds)
    (pts : list (option coord * option coord)) : Throws (option LatLngBounds) :=
  match pts with
  | [] => Ok b
  | p :: rest => q ← toLatLng p; extendAll (Some (extend b q)) rest
  end.

Definition latLngBounds (pts : list (option coord * option coord))
  : Throws (option LatLngBounds) := extendAll None pts.

(** [[parseFloat(v.lat), parseFloat(v.lon)]] *)
Definition latlon (v : JSValue) : Throws (option coord * option coord) :=
  la ← get v "lat"; lo ← get v "lon"; Ok (parseFloat la, parseFloat lo).

(** [buses.map(bus => ...)] *)
Fixpoint mapT {A B} (f : A -> Throws B) (l : list A) : Throws (list B) :=
  match l with
  | [] => Ok []
  | x :: r => y ← f x; ys ← mapT f r; Ok (y :: ys)
  end.

(** The call the effect makes on the map, if any:
    [map.fitBounds(bounds, { padding: [50, 50] })]. *)
Inductive MapCall :=
| fitBounds (bounds : LatLngBounds) (padding : Z * Z).

(** The effect body of [FitBounds({ buses, userLocation })].  [buses] is
    the array the parent renders ([vehicles.map] has already run on it);
    [userLocation] is [null] or the location object.  [useMap()] always
    yields the map inside a [MapContainer]. *)
Definition FitBounds (buses : list JSValue) (userLocation : JSValue)
  : Throws (option MapCall) :=
  if Nat.eqb (length buses) 0 || negb (truthy userLocation) then Ok None
  else
    pts ← mapT latlon buses;
    u ← latlon userLocation;
    b ← latLngBounds (pts ++ [u]);
    match b with
    | Some bounds => Ok (Some (fitBounds bounds (50, 50)))
    | None => Throw
    end.

(** A box covers a point. *)
Definition covers (b : LatLngBounds) (p : LatLng) : Prop :=
  leb (lat (southWest b)) (lat p) = true /\ leb (lat p) (lat (northEast b)) = true /\
  leb (lng (southWest b)) (lng p) = true /\ leb (lng p) (lng (northEast b)) = true.

(** Box [b] lies inside box [c]. *)
Definition inside (b c : LatLngBounds) : Prop :=
  leb (lat (southWest c)) (lat (southWest b)) = true /\
  leb (lat (northEast b)) (lat (northEast c)) = true /\
  leb (lng (southWest c)) (lng (southWest b)) = true /\
  leb (lng (northEast b)) (lng (northEast c)) = true.

(** The coordinate of a vehicle or of the user location, when both of
    its fields are present and numeric. *)
Definition coordinate (v : JSValue) : option LatLng :=
  match latlon v with
  | Ok (Some la, Some lo) => Some (mkLatLng la lo)
  | _ => None
  end.

(** A valid coordinate as the pair of numbers handed to Leaflet. *)
Definition raw (p : LatLng) : option coord * option coord :=
  (Some (lat p), Some (lng p)).
End Fit.

Arguments LatLng : clear implicits.
Arguments LatLngBounds : clear implicits.
Arguments MapCall : clear implicits.

(** An instance of the parameters, for integral coordinates: [parseFloat]
    restricted to integer strings and integral numbers, ordered by
    [Z.leb]. *)
Definition parseFloat_integral (v : JSValue) : option Z :=
  match v with
  | JStr s => parseInt s
  | JNum q => if (Qden q =? 1)%positive then Some (Qnum q) else None
  | _ => None
  end.

End Viewport.

(* ===================================================================== *)
(** ** The BusView component *)
(* ===================================================================== *)

Module BusView.
Import JS.

(** The eleven [useState] cells.  The selections come from
    [e.target.value] and are strings; a collection holds whatever the last
    callback stored in it. *)
Record State := mkState {
  routes : JSValue;
  selectedRoute : string;
  directions : JSValue;
  direction : string;
  stops : JSValue;
  selectedStop : string;
  predictions : JSValue;
  vehicles : JSValue;
  predictionAttempted : bool;
  userLocation : JSValue;
  stopsLoaded : bool
}.

(** The [useState] initial values. *)
Definition initial : State :=
  mkState empty "" empty "" empty "" empty empty false JNull false.

Definition setRoutes (v : JSValue) (s : State) : State :=
  mkState v (selectedRoute s) (directions s) (direction s) (stops s)
    (selectedStop s) (predictions s) (vehicles s) (predictionAttempted s)
    (userLocation s) (stopsLoaded s).
Definition setSelectedRoute (v : string) (s : State) : State :=
  mkState (routes s) v (directions s) (direction s) (stops s)
    (selectedStop s) (predictions s) (vehicles s) (predictionAttempted s)
    (userLocation s) (stopsLoaded s).
Definition setDirections (v : JSValue) (s : State) : State :=
  mkState (routes s) (selectedRoute s) v (direction s) (stops s)
    (selectedStop s) (predictions s) (vehicles s) (predictionAttempted s)
    (userLocation s) (stopsLoaded s).
Definition setDirection (v : string) (s : State) : State :=
  mkState (routes s) (selectedRoute s) (directions s) v (stops s)
    (selectedStop s) (predictions s) (vehicles s) (predictionAttempted s)
    (userLocation s) (stopsLoaded s).
Definition setStops (v : JSValue) (s : State) : State :=
  mkState (routes s) (selectedRoute s) (directions s) (direction s) v
    (selectedStop s) (predictions s) (vehicles s) (predictionAttempted s)
    (userLocation s) (stopsLoaded s).
Definition setSelectedStop (v : string) (s : State) : State :=
  mkState (routes s) (selectedRoute s) (directions s) (direction s) (stops s)
    v (predictions s) (vehicles s) (predictionAttempted s)
    (userLocation s) (stopsLoaded s).
Definition setPredictions (v : JSValue) (s : State) : State :=
  mkState (routes s) (selectedRoute s) (directions s) (direction s) (stops s)
    (selectedStop s) v (vehicles s) (predictionAttempted s)
    (userLocation s) (stopsLoaded s).
Definition setVehicles (v : JSValue) (s : State) : State :=
  mkState (routes s) (selectedRoute s) (directions s) (direction s) (stops s)
    (selectedStop s) (predictions s) v (predictionAttempted s)
    (userLocation s) (stopsLoaded s).
Definition setPredictionAttempted (v : bool) (s : State) : State :=
  mkState (routes s) (selectedRoute s) (directions s) (direction s) (stops s)
    (selectedStop s) (predictions s) (vehicles s) v
    (userLocation s) (stopsLoaded s).
Definition setUserLocation (v : JSValue) (s : State) : State :=
  mkState (routes s) (selectedRoute s) (directions s) (direction s) (stops s)
    (selectedStop s) (predictions s) (vehicles s) (predictionAttempted s)
    v (stopsLoaded s).
Definition setStopsLoaded (v : bool) (s : State) : State :=
  mkState (routes s) (selectedRoute s) (directions s) (direction s) (stops s)
    (selectedStop s) (predictions s) (vehicles s) (predictionAttempted s)
    (userLocation s) v.

(** *** Requests *)

(** The [axios.get] calls of the component, by endpoint and parameters. *)
Inductive Request :=
| GetRoutes
| GetDirections (rt : string)
| GetStops (rt dir : string)
| GetVehicles (rt : string)
| GetPredictions (stop_id rt : string).

Definition backend : string := "http://127.0.0.1:8000".

Definition url (q : Request) : string :=
  match q with
  | GetRoutes => backend +:+ "/cta/bus/routes"
  | GetDirections rt => backend +:+ "/cta/bus/directions?rt=" +:+ rt
  | GetStops rt dir =>
      backend +:+ "/cta/bus/stops?rt=" +:+ rt +:+ "&direction=" +:+ dir
  | GetVehicles rt => backend +:+ "/cta/bus/vehicles?rt=" +:+ rt
  | GetPredictions stop_id rt =>
      backend +:+ "/cta/bus/predictions?stop_id=" +:+ stop_id +:+ "&rt=" +:+ rt
  end.

(** How a request ends: the promise resolves with a response whose body is
    [res.data], or rejects (transport error, error status). *)
Inductive Response :=
| Resolved (data : JSValue)
| Rejected.

(** *** Promise callbacks *)

(** The [.then] callbacks.  In each the argument of the first setter is
    evaluated before any setter runs, so a callback that throws has changed
    nothing. *)
Definition thenRoutes (data : JSValue) (s : State) : Throws State :=
  let d := get_opt (get_opt data "bustime-response") "routes" in
  if isArray d then Ok (setRoutes d s) else Ok (setRoutes empty s).

Definition thenDirections (data : JSValue) (s : State) : Throws State :=
  env ← get data "bustime-response";
  d ← get env "directions";
  Ok (setVehicles empty
     (setPredictionAttempted false
     (setPredictions empty
     (setSelectedStop ""
     (setStops empty
     (setDirection ""
     (setDirections (or_else d empty) s))))))).

Definition thenStops (data : JSValue) (s : State) : Throws State :=
  env ← get data "bustime-response";
  d ← get env "stops";
  Ok (setStopsLoaded true (setStops (or_else d empty) s)).

Definition thenVehicles (data : JSValue) (s : State) : Throws State :=
  env ← get data "bustime-response";
  d ← get env "vehicle";
  Ok (setVehicles (or_else d empty) s).

Definition thenPredictions (data : JSValue) (s : State) : Throws State :=
  env ← get data "bustime-response";
  d ← get env "prd";
  Ok (setPredictionAttempted true (setPredictions (or_else d empty) s)).

Definition onFulfilled (q : Request) : JSValue -> State -> Throws State :=
  match q with
  | GetRoutes => thenRoutes
  | GetDirections _ => thenDirections
  | GetStops _ _ => thenStops
  | GetVehicles _ => thenVehicles
  | GetPredictions _ _ => thenPredictions
  end.

(** The [.catch] callbacks: the new state and what [console.error]
    receives. *)
Definition onRejected (q : Request) (s : State) : State * list string :=
  match q with
  | GetRoutes => (setRoutes empty s, ["Error fetching routes:"])
  | GetDirections _ => (setDirections empty s, ["Error fetching directions:"])
  | GetStops _ _ => (setStopsLoaded true (setStops empty s), [])
  | GetVehicles _ => (setVehicles empty s, [])
  | GetPredictions _ _ => (s, ["Error fetching predictions:"])
  end.

(** [axios.get(url).then(...).catch(...)]: the [.catch] also receives what
    the [.then] callback throws.  The result is [Throw] if the chain ends
    in an unhandled rejection. *)
Definition chain (q : Request) (r : Response) (s : State)
  : Throws (State * list string) :=
  match r with
  | Resolved data =>
      match onFulfilled q data s with
      | Ok s' => Ok (s', [])
      | Throw => Ok (onRejected q s)
      end
  | Rejected => Ok (onRejected q s)
  end.

(** The state once the chain has run. *)
Definition settled (q : Request) (r : Response) (s : State) : State :=
  match chain q r s with
  | Ok (s', _) => s'
  | Throw => s
  end.

(** The collection a request feeds, and the value its [.then] callback
    reads out of the response body. *)
Definition collection (q : Request) : State -> JSValue :=
  match q with
  | GetRoutes => routes
  | GetDirections _ => directions
  | GetStops _ _ => stops
  | GetVehicles _ => vehicles
  | GetPredictions _ _ => predictions
  end.

Definition field (q : Request) : string :=
  match q with
  | GetRoutes => "routes"
  | GetDirections _ => "directions"
  | GetStops _ _ => "stops"
  | GetVehicles _ => "vehicle"
  | GetPredictions _ _ => "prd"
  end.

Definition payload (q : Request) (data : JSValue) : Throws JSValue :=
  match q with
  | GetRoutes => Ok (get_opt (get_opt data "bustime-response") "routes")
  | _ => env ← get data "bustime-response"; get env (field q)
  end.

(** A response a callback cannot use: the request was rejected, the body
    has no envelope, or the field is absent or falsy (for the routes: is
    not an array). *)
Definition unusable (q : Request) (r : Response) : Prop :=
  match r with
  | Rejected => True
  | Resolved data =>
      match payload q data with
      | Throw => True
      | Ok d => if q is GetRoutes then isArray d = false else truthy d = false
      end
  end.

(** *** Effects *)

(** [useEffect(..., [selectedRoute])] *)
Definition effectRoute (s : State) : list Request :=
  if nonempty (selectedRoute s) then [GetDirections (selectedRoute s)] else [].

(** [useEffect(..., [selectedRoute, direction])] *)
Definition effectDirection (s : State) : State * list Request :=
  if nonempty (selectedRoute s) && nonempty (direction s) then
    (setPredictionAttempted false
       (setPredictions empty
       (setSelectedStop ""
       (setStopsLoaded false s))),
     [GetStops (selectedRoute s) (direction s); GetVehicles (selectedRoute s)])
  else (s, []).

(** One commit: the component re-renders from [old] to [new] and React
    runs, in declaration order, the effects whose dependencies changed.
    Both effects read the rendered state [new]; the setters the second one
    calls touch no dependency, so no further effect follows. *)
Definition commit (old new : State) : State * list Request :=
  let route_changed := negb (String.eqb (selectedRoute old) (selectedRoute new)) in
  let dir_changed := negb (String.eqb (direction old) (direction new)) in
  let r1 := if route_changed then effectRoute new else [] in
  let '(s2, r2) :=
    if route_changed || dir_changed then effectDirection new else (new, []) in
  (s2, r1 ++ r2).

(** *** Event handlers *)

(** [getPredictions]: the request it sends, if any. *)
Definition getPredictions (s : State) : list Request :=
  if nonempty (selectedStop s)
  then [GetPredictions (selectedStop s) (selectedRoute s)] else [].

(** [resetApp]: ten setters in one batch. *)
Definition resetApp (s : State) : State :=
  setStopsLoaded false
  (setUserLocation JNull
  (setPredictionAttempted false
  (setVehicles empty
  (setPredictions empty
  (setSelectedStop ""
  (setStops empty
  (setDirection ""
  (setDirections empty
  (setSelectedRoute "" s))))))))).

(** The object [{ lat: ..., lon: ... }] kept in [userLocation]. *)
Definition position (la lo : Q) : JSValue :=
  JObj {[ "lat" := JNum la; "lon" := JNum lo ]}.

(** The fallback coordinate of the geolocation error callback. *)
Definition fallback : JSValue := position (418781 # 10000) (-876298 # 10000).

(** *** The running application *)

(** The component state together with its environment: the requests in
    flight (oldest first), the pending geolocation query and the console. *)
Record App := mkApp {
  ui : State;
  inflight : list Request;
  locating : bool;
  console : list string
}.

(** What happens to the application. *)
Inductive Event :=
| ChooseRoute (v : string)        (* route select: [setSelectedRoute(e.target.value)] *)
| ChooseDirection (v : string)    (* direction select: [setDirection(e.target.value)] *)
| ChooseStop (v : string)         (* stop select: [setSelectedStop(e.target.value)] *)
| ClickGetPredictions
| ClickReset
| Settle (i : nat) (r : Response) (* the [i]-th request in flight completes *)
| Located (lat lon : Q)           (* geolocation succeeds *)
| LocationFailed.                 (* geolocation fails or is denied *)

(** The state the callbacks of an event produce, the requests they send
    themselves and what they log, before the commit. *)
Definition handle (a : App) (e : Event) : State * list Request * list string :=
  let s := ui a in
  match e with
  | ChooseRoute v => (setSelectedRoute v s, [], [])
  | ChooseDirection v => (setDirection v s, [], [])
  | ChooseStop v => (setSelectedStop v s, [], [])
  | ClickGetPredictions => (s, getPredictions s, [])
  | ClickReset => (resetApp s, [], [])
  | Settle i r =>
      match inflight a !! i with
      | Some q =>
          match chain q r s with
          | Ok (s', logs) => (s', [], logs)
          | Throw => (s, [], [])
          end
      | None => (s, [], [])
      end
  | Located la lo =>
      if locating a
      then (setUserLocation (position la lo) s, [], [])
      else (s, [], [])
  | LocationFailed =>
      if locating a
      then (setUserLocation fallback s, [], ["Error getting location:"])
      else (s, [], [])
  end.

(** The requests and the geolocation query that are still pending after
    the event. *)
Definition pending (a : App) (e : Event) : list Request * bool :=
  match e with
  | Settle i _ => (delete i (inflight a), locating a)
  | Located _ _ | LocationFailed => (inflight a, false)
  | _ => (inflight a, locating a)
  end.

(** Requests an event causes: those its handler sends and those of the
    effects that follow. *)
Definition issued (a : App) (e : Event) : list Request :=
  let '(s', sent, _) := handle a e in
  sent ++ snd (commit (ui a) s').

Definition step (a : App) (e : Event) : App :=
  let '(s', sent, logs) := handle a e in
  let '(s'', more) := commit (ui a) s' in
  let '(rest, loc) := pending a e in
  mkApp s'' (rest ++ sent ++ more) loc (console a ++ logs).

Definition run (a : App) (es : list Event) : App := foldl step a es.

(** After the first render: the mount effects have asked for the location
    and for the routes; the two selection effects found nothing selected. *)
Definition mount : App := mkApp initial [GetRoutes] true [].

(** *** The stop section of the view *)

(** [v.length]: arrays and strings have one (for a string only its being
    zero or not matters below), an object has the property it was given,
    [undefined] and [null] have no properties at all. *)
Definition length_of (v : JSValue) : Throws JSValue :=
  match v with
  | JUndefined | JNull => Throw
  | JArr l => Ok (JNum (inject_Z (Z.of_nat (length l))))
  | JStr s => Ok (JNum (inject_Z (Z.of_nat (String.length s))))
  | JObj m => Ok (default JUndefined (m !! "length"))
  | _ => Ok JUndefined
  end.

(** [n > 0]: [undefined] converts to [NaN], [null] to 0, [true] to 1.  A
    string, array or object goes through string-to-number conversion,
    which is left open ([None]); only an object's own [length] property
    can be one. *)
Definition greater_than_zero (n : JSValue) : option bool :=
  match n with
  | JNum q => Some (0 <? Qnum q)
  | JUndefined | JNull => Some false
  | JBool b => Some b
  | _ => None
  end.

(** What the block under [{direction && (...)}] shows. *)
Inductive StopSection :=
| NotRendered                        (* no direction selected *)
| StopList (options : list JSValue)  (* the stop select and the button *)
| NoStopData                         (* "No stop data available ..." *)
| Nothing                            (* neither: still loading *)
| RenderError                        (* the render throws, e.g. [stops.map] is not a function *)
| Unmodelled.                        (* depends on a conversion left open *)

Definition stopSection (s : State) : StopSection :=
  if nonempty (direction s) then
    match length_of (stops s) with
    | Throw => RenderError
    | Ok n =>
        match greater_than_zero n with
        | Some true =>
            match stops s with
            | JArr l => StopList l
            | _ => RenderError
            end
        | Some false => if stopsLoaded s then NoStopData else Nothing
        | None => Unmodelled
        end
    end
  else NotRendered.

(** *** What the rider can do *)

(** The [value]s of the options a select builds from a collection: the
    placeholder and one option per element ([key] is [rt], [dir] or
    [stpid]; these arrive as strings). *)
Definition values (key : string) (l : list JSValue) : list string :=
  omap (fun o => if get_opt o key is JStr v then Some v else None) l.

Definition choices (key : string) (v : JSValue) : list string :=
  if v is JArr l then "" :: values key l else [].

(** The events the page and its environment offer in a state: a select
    reports a change to another of its options, the direction select
    exists once there are directions, the stop select and the predictions
    button exist when the stop list is shown, a request completes while it
    is in flight, the location query answers once. *)
Definition offered (a : App) (e : Event) : bool :=
  let s := ui a in
  match e with
  | ChooseRoute v =>
      bool_decide (v <> selectedRoute s) &&
      bool_decide (v ∈ choices "rt" (routes s))
  | ChooseDirection v =>
      bool_decide (v <> direction s) &&
      (if directions s is JArr (_ :: _)
       then bool_decide (v ∈ choices "dir" (directions s)) else false)
  | ChooseStop v =>
      bool_decide (v <> selectedStop s) &&
      (if stopSection s is StopList l
       then bool_decide (v ∈ "" :: values "stpid" l) else false)
  | ClickGetPredictions => if stopSection s is StopList _ then true else false
  | ClickReset => true
  | Settle i _ => bool_decide (i < length (inflight a))%nat
  | Located _ _ | LocationFailed => locating a
  end.

(** A session: every event is offered when it happens. *)
Fixpoint session (a : App) (es : list Event) : bool :=
  match es with
  | [] => true
  | e :: rest => offered a e && session (step a e) rest
  end.

End BusView.

(* ===================================================================== *)
(** ** Sessions *)
(* ===================================================================== *)

Module Scenario.
Import JS BusView.

(** A response body [{ "bustime-response": { <field>: v } }]. *)
Definition body (field : string) (v : JSValue) : JSValue :=
  JObj {[ "bustime-response" := JObj {[ field := v ]} ]}.

Definition routeList : JSValue :=
  JArr [JObj {[ "rt" := JStr "22"; "rtn" := JStr "Clark" ]};
        JObj {[ "rt" := JStr "9"; "rtn" := JStr "Ashland" ]}].
Definition directions22 : JSValue :=
  JArr [JObj {[ "dir" := JStr "Northbound" ]}; JObj {[ "dir" := JStr "Southbound" ]}].
Definition directions9 : JSValue :=
  JArr [JObj {[ "dir" := JStr "Eastbound" ]}; JObj {[ "dir" := JStr "Westbound" ]}].
Definition stopList : JSValue :=
  JArr [JObj {[ "stpid" := JStr "1"; "stpnm" := JStr "Clark/Howard" ]}].
Definition vehicleList : JSValue :=
  JArr [JObj {[ "vid" := JStr "101"; "lat" := JStr "41.9";
                "lon" := JStr "-87.6"; "hdg" := JStr "90" ]}].
Definition arrivals : JSValue :=
  JArr [JObj {[ "rt" := JStr "22"; "rtdir" := JStr "Northbound";
                "prdtm" := JStr "12/25 14:10" ]}].

(** The rider of the specification's scenario: route 22, Northbound,
    stop 1, Get Predictions, every request answered before the next
    choice. *)
Definition rider : list Event :=
  [ Settle 0 (Resolved (body "routes" routeList));
    ChooseRoute "22";
    Settle 0 (Resolved (body "directions" directions22));
    ChooseDirection "Northbound";
    Settle 0 (Resolved (body "stops" stopList));
    Settle 0 (Resolved (body "vehicle" vehicleList));
    ChooseStop "1";
    ClickGetPredictions;
    Settle 0 (Resolved (body "prd" arrivals)) ].

(** Up to the choice of a route, the arrival of its directions, and the
    choice of a direction. *)
Definition route22 : list Event :=
  [ Settle 0 (Resolved (body "routes" routeList));
    ChooseRoute "22" ].

Definition directionsOf22 : list Event :=
  route22 ++ [ Settle 0 (Resolved (body "directions" directions22)) ].

Definition northbound22 : list Event :=
  directionsOf22 ++ [ ChooseDirection "Northbound" ].

(** Two routes chosen in quick succession; the answer for the second
    arrives first.  Still in flight afterwards: the directions request of
    route 22. *)
Definition quickSuccession : list Event :=
  [ Settle 0 (Resolved (body "routes" routeList));
    ChooseRoute "22";
    ChooseRoute "9";
    Settle 1 (Resolved (body "directions" directions9)) ].

End Scenario.

(* ===================================================================== *)
(** ** The specification's statements, as written

    Each is read over the sessions of the application: the states a rider
    can reach from the first render. *)
(* ===================================================================== *)

Module Stated.
Import JS BusView.

(** "Results from superseded calls must be discarded even if they arrive
    later": a directions response for a route that is no longer the
    selected one leaves [directions] alone. *)
Definition superseded_directions_discarded : Prop :=
  forall (es : list Event) (i : nat) (rt : string) (r : Response),
    session mount es = true ->
    let a := run mount es in
    inflight a !! i = Some (GetDirections rt) ->
    rt <> selectedRoute (ui a) ->
    directions (ui (step a (Settle i r))) = directions (ui a).

(** "[setRoute(r)] always yields [direction = stop = empty] and
    [predictions = vehicles = empty] immediately after the call returns". *)
Definition route_change_clears_at_once : Prop :=
  forall (es : list Event) (r : string),
    session mount (es ++ [ChooseRoute r]) = true ->
    let s := ui (step (run mount es) (ChooseRoute r)) in
    direction s = "" /\ selectedStop s = "" /\ stops s = empty /\
    predictions s = empty /\ vehicles s = empty /\
    predictionAttempted s = false.

(** The expected shape [{ "<envelope-key>": { <field>: [...] } }]. *)
Definition expected_shape (q : Request) (r : Response) : Prop :=
  exists data l, r = Resolved data /\ payload q data = Ok (JArr l).

(** "Absence of the expected shape or a transport error must degrade to
    an empty sequence for that collection", for every fetched collection. *)
Definition every_failure_empties : Prop :=
  forall (es : list Event) (i : nat) (q : Request) (r : Response),
    session mount es = true ->
    let a := run mount es in
    inflight a !! i = Some q ->
    ~ expected_shape q r ->
    collection q (ui (step a (Settle i r))) = empty.

(** "Both failures yield an empty sequence for their respective
    collection, paired with a fetch-completed flag set to true".  The
    state has two boolean cells. *)
Definition each_failure_raises_a_flag : Prop :=
  forall (es : list Event) (i : nat) (q : Request),
    session mount es = true ->
    let a := run mount es in
    inflight a !! i = Some q ->
    (exists rt d, q = GetStops rt d) \/ (exists rt, q = GetVehicles rt) ->
    let s := ui (step a (Settle i Rejected)) in
    collection q s = empty /\
    (stopsLoaded s = true \/ predictionAttempted s = true).

(** "Before the stops fetch completes, the UI must show neither 'no
    stops' nor a stop list". *)
Definition pending_stops_show_nothing : Prop :=
  forall (es : list Event) (rt d : string),
    session mount es = true ->
    let a := run mount es in
    GetStops rt d ∈ inflight a ->
    stopSection (ui a) = Nothing \/ stopSection (ui a) = NotRendered.

End Stated.

(* ===================================================================== *)
(** ** The rest of the view *)
(* ===================================================================== *)

Module Display.
Import JS BusView.

(** [formatTime(v)] on a value: anything but a string has no [split]
    method to call. *)
Definition formatTimeOf (v : JSValue) : Throws string :=
  match v with
  | JStr timestamp => Format.formatTime timestamp
  | _ => Throw
  end.

(** One [<li>] of the upcoming buses:
    [Route {p.rt} to {p.rtdir} - Arriving at {formatTime(p.prdtm)}].
    The three children in the order they are evaluated; [p.rt] and
    [p.rtdir] are handed to React as they are.  ([rt], [rtdir] and [prdtm]
    are data keys in the sense of [get].) *)
Definition predictionLine (p : JSValue) : Throws (JSValue * JSValue * string) :=
  rt ← get p "rt";
  rtdir ← get p "rtdir";
  prdtm ← get p "prdtm";
  time ← formatTimeOf prdtm;
  Ok (rt, rtdir, time).

(** What the block [{predictions.length > 0 ? (...) : (...)}] shows. *)
Inductive PredictionSection :=
| Upcoming (lines : list (JSValue * JSValue * string))  (* the list of buses *)
| NoActiveBuses                      (* "No active buses at this stop right now." *)
| Blank                              (* neither *)
| PredictionError                    (* the render throws *)
| PredictionUnmodelled.              (* depends on a conversion left open *)

Definition predictionSection (s : State) : PredictionSection :=
  match length_of (predictions s) with
  | Throw => PredictionError
  | Ok n =>
      match greater_than_zero n with
      | Some true =>
          match predictions s with
          | JArr l =>
              match Viewport.mapT predictionLine l with
              | Ok lines => Upcoming lines
              | Throw => PredictionError
              end
          | _ => PredictionError
          end
      | Some false =>
          if predictionAttempted s && nonempty (selectedStop s)
          then NoActiveBuses else Blank
      | None => PredictionUnmodelled
      end
  end.


End Display.

(* ===================================================================== *)
(** ** The page: App *)
(* ===================================================================== *)

Module Page.

(** [App] keeps the mode and renders [BusView] under [mode === 'bus'] and
    [TrainView] under [mode === 'train'].  A view that stops being
    rendered is unmounted and its state is dropped; when it is rendered
    again it is mounted afresh.  [bus] is the mounted [BusView], if any. *)
Record State := mkPage {
  mode : string;
  bus : option BusView.App
}.

(** [useState('bus')], first render. *)
Definition initial : State := mkPage "bus" (Some BusView.mount).

Inductive Event :=
| ClickBusMode                    (* [setMode('bus')] *)
| ClickTrainMode                  (* [setMode('train')] *)
| InBusView (e : BusView.Event).  (* something happens to the mounted bus view *)

(** [setMode(m)] and the render that follows: the same mode changes
    nothing; otherwise the bus view is mounted or unmounted as the
    condition says. *)
Definition setMode (m : string) (p : State) : State :=
  if String.eqb (mode p) m then p
  else mkPage m (if String.eqb m "bus" then Some BusView.mount else None).

Definition step (p : State) (e : Event) : State :=
  match e with
  | ClickBusMode => setMode "bus" p
  | ClickTrainMode => setMode "train" p
  | InBusView e' =>
      match bus p with
      | Some a => mkPage (mode p) (Some (BusView.step a e'))
      | None => p
      end
  end.

Definition run (p : State) (es : list Event) : State := foldl step p es.



End Page.

(* ===================================================================== *)
(** ** Invariants of the cascade *)
(* ===================================================================== *)

Module Invariant.
Import JS BusView.

(** A request carries the selection its guard tested: a route for
    directions, stops and vehicles, a direction for stops, a stop for
    predictions. *)
Definition guarded (q : Request) : Prop :=
  match q with
  | GetRoutes => True
  | GetDirections rt => rt <> ""
  | GetStops rt dir => rt <> "" /\ dir <> ""
  | GetVehicles rt => rt <> ""
  | GetPredictions stop_id _ => stop_id <> ""
  end.

(** No collection is [undefined], [null] or otherwise falsy, and the
    route list is an array. *)
Definition defined (s : State) : Prop :=
  isArray (routes s) = true /\ truthy (directions s) = true /\
  truthy (stops s) = true /\ truthy (predictions s) = true /\
  truthy (vehicles s) = true.

End Invariant.

(* ===================================================================== *)
(** ** Properties of formatTime *)
(* ===================================================================== *)

Section FormatTimeProps.
Import JS Format.

Lemma split_without (c : ascii) (s : string) :
  contains c s = false -> split c s = [s].
Proof.
  induction s as [|d s IH]; simpl; [done|].
  intros H. apply orb_false_iff in H as [Hd Hs].
  rewrite Hd, (IH Hs). done.
Qed.

Lemma split_at_first (c : ascii) (a b : string) :
  contains c a = false -> split c (a +:+ String c b) = a :: split c b.
Proof.
  induction a as [|d a IH]; simpl.
  - intros _. by rewrite Ascii.eqb_refl.
  - intros H. apply orb_false_iff in H as [Hd Ha].
    rewrite Hd, (IH Ha). done.
Qed.

Lemma contains_app (c : ascii) (a b : string) :
  contains c (a +:+ b) = contains c a || contains c b.
Proof.
  induction a as [|d a IH]; simpl; [done|]. by rewrite IH, orb_assoc.
Qed.

(** The result on a timestamp ["<date> <hour>:<minute>"], in terms of the
    number [parseInt] reads from the hour. *)
Lemma formatTime_parts (date hour minute : string) (h : Z) :
  contains " " date = false ->
  contains " " hour = false -> contains ":" hour = false ->
  contains " " minute = false -> contains ":" minute = false ->
  parseInt hour = Some h ->
  formatTime (date +:+ " " +:+ hour +:+ ":" +:+ minute)
  = Ok (pretty (if Z.rem h 12 =? 0 then 12 else Z.rem h 12)
        +:+ ":" +:+ minute +:+ " " +:+ (if 12 <=? h then "PM" else "AM")).
Proof.
  intros Hd Hh1 Hh2 Hm1 Hm2 Hp. unfold formatTime.
  change (date +:+ " " +:+ hour +:+ ":" +:+ minute)
    with (date +:+ String " " (hour +:+ String ":" minute)).
  rewrite (split_at_first _ _ _ Hd).
  rewrite (split_without " " (hour +:+ String ":" minute)).
  2:{ rewrite contains_app. simpl. by rewrite Hh1, Hm1. }
  simpl. rewrite (split_at_first _ _ _ Hh2), (split_without _ _ Hm2).
  simpl. rewrite Hp. done.
Qed.

(** C8. [formatTime] turns a ["<date> <H:MM>"] 24-hour timestamp into
    12-hour time with an AM/PM suffix and passes the minute through as
    received: the three timestamps of the specification, a single-digit
    hour after any date, and every hour [0..23] with any minute string. *)
Theorem formatTime_twelve_hour_clock :
  formatTime "12/25 0:05" = Ok "12:05 AM" /\
  formatTime "12/25 13:30" = Ok "1:30 PM" /\
  formatTime "12/25 12:00" = Ok "12:00 PM" /\
  (forall date, contains " " date = false ->
     formatTime (date +:+ " 9:05") = Ok "9:05 AM") /\
  (forall date hour minute h,
     contains " " date = false ->
     contains " " hour = false -> contains ":" hour = false ->
     contains " " minute = false -> contains ":" minute = false ->
     parseInt hour = Some h -> 0 <= h < 24 ->
     exists h12,
       formatTime (date +:+ " " +:+ hour +:+ ":" +:+ minute)
       = Ok (pretty h12 +:+ ":" +:+ minute +:+ " "
             +:+ (if h <? 12 then "AM" else "PM"))
       /\ 1 <= h12 <= 12 /\ (h12 - h) mod 12 = 0).
Proof.
  split; [by vm_compute|]. split; [by vm_compute|]. split; [by vm_compute|].
  split.
  - intros date Hd.
    change (date +:+ " 9:05") with (date +:+ " " +:+ "9" +:+ ":" +:+ "05").
    by rewrite (formatTime_parts date "9" "05" 9).
  - intros date hour minute h Hd Hh1 Hh2 Hm1 Hm2 Hp Hr.
    exists (if Z.rem h 12 =? 0 then 12 else Z.rem h 12).
    rewrite (formatTime_parts date hour minute h) by done.
    split.
    + f_equal. f_equal. f_equal. f_equal.
      destruct (Z.leb_spec 12 h), (Z.ltb_spec h 12); (done || lia).
    + rewrite Z.rem_mod_nonneg by lia.
      destruct (Z.eqb_spec (h mod 12) 0) as [E|E].
      * split; [lia|]. rewrite <- Zminus_mod_idemp_r, E.
        by rewrite Z.sub_0_r, Z_mod_same_full.
      * pose proof (Z.mod_pos_bound h 12 ltac:(lia)).
        split; [lia|]. by rewrite Zminus_mod_idemp_l, Z.sub_diag.
Qed.

Lemma formatTime_twelve_hour_clock_witness :
  exists h12,
    formatTime ("12/25" +:+ " " +:+ "14" +:+ ":" +:+ "10")
    = Ok (pretty h12 +:+ ":" +:+ "10" +:+ " " +:+ "PM")
    /\ 1 <= h12 <= 12 /\ (h12 - 14) mod 12 = 0.
Proof.
  destruct formatTime_twelve_hour_clock as (_ & _ & _ & _ & H).
  apply (H "12/25" "14" "10" 14); try reflexivity; lia.
Defined.

(** Outside that format the function throws or prints what it parsed. *)
Example formatTime_without_date : formatTime "9:05" = Throw.
Proof. by vm_compute. Qed.

Example formatTime_without_minute : formatTime "12/25 14" = Ok "2:undefined PM".
Proof. by vm_compute. Qed.

Example formatTime_hour_not_a_number : formatTime "12/25 xx:10" = Ok "NaN:10 AM".
Proof. by vm_compute. Qed.

End FormatTimeProps.

(* ===================================================================== *)
(** ** Properties of FitBounds *)
(* ===================================================================== *)

Section FitBoundsProps.
Import JS Viewport.

Context {coord : Type}.
Variable leb : coord -> coord -> bool.
Variable parseFloat : JSValue -> option coord.
Hypothesis leb_total : forall a b, leb a b = true \/ leb b a = true.
Hypothesis leb_trans : forall a b c, leb a b = true -> leb b c = true -> leb a c = true.

#[local] Abbreviation covers := (Viewport.covers leb).
#[local] Abbreviation inside := (Viewport.inside leb).
#[local] Abbreviation cmin := (Viewport.cmin leb).
#[local] Abbreviation cmax := (Viewport.cmax leb).

Local Lemma leb_refl a : leb a a = true.
Proof. by destruct (leb_total a a). Qed.

Local Lemma cmin_l a b : leb (cmin a b) a = true.
Proof.
  unfold Viewport.cmin. destruct (leb a b) eqn:E; [apply leb_refl|].
  by destruct (leb_total a b) as [H|H]; [congruence|].
Qed.

Local Lemma cmin_r a b : leb (cmin a b) b = true.
Proof. unfold Viewport.cmin. destruct (leb a b) eqn:E; [done|apply leb_refl]. Qed.

Local Lemma cmax_l a b : leb a (cmax a b) = true.
Proof. unfold Viewport.cmax. destruct (leb a b) eqn:E; [done|apply leb_refl]. Qed.

Local Lemma cmax_r a b : leb b (cmax a b) = true.
Proof.
  unfold Viewport.cmax. destruct (leb a b) eqn:E; [apply leb_refl|].
  by destruct (leb_total a b) as [H|H]; [congruence|].
Qed.

Local Lemma cmin_glb a b c : leb c a = true -> leb c b = true -> leb c (cmin a b) = true.
Proof. unfold Viewport.cmin. by destruct (leb a b). Qed.

Local Lemma cmax_lub a b c : leb a c = true -> leb b c = true -> leb (cmax a b) c = true.
Proof. unfold Viewport.cmax. by destruct (leb a b). Qed.

Local Lemma inside_refl b : inside b b.
Proof. repeat split; apply leb_refl. Qed.

Local Lemma inside_trans b c d : inside b c -> inside c d -> inside b d.
Proof.
  intros (?&?&?&?) (?&?&?&?). repeat split; eauto using leb_trans.
Qed.

Local Lemma covers_inside b c p : covers b p -> inside b c -> covers c p.
Proof.
  intros (?&?&?&?) (?&?&?&?). repeat split; eauto using leb_trans.
Qed.

(** Extending a box keeps it inside the result, covers the new point, and
    stays within every box that has both. *)
Local Lemma extend_some b p :
  inside b (extend leb (Some b) p) /\ covers (extend leb (Some b) p) p /\
  (forall c, inside b c -> covers c p -> inside (extend leb (Some b) p) c).
Proof.
  destruct b as [sw ne]. simpl. split; [|split].
  - repeat split; simpl; auto using cmin_r, cmax_r.
  - repeat split; simpl; auto using cmin_l, cmax_l.
  - intros c (?&?&?&?) (?&?&?&?). simpl in *.
    repeat split; simpl; auto using cmin_glb, cmax_lub.
Qed.

Local Lemma extendAll_some (pts : list (LatLng coord)) : forall b,
  exists b', extendAll leb (Some b) (raw <$> pts) = Ok (Some b') /\
    inside b b' /\ (forall p, p ∈ pts -> covers b' p) /\
    (forall c, inside b c -> (forall p, p ∈ pts -> covers c p) -> inside b' c).
Proof.
  induction pts as [|p pts IH]; intros b; simpl.
  - exists b. split; [done|]. split; [apply inside_refl|].
    split; [by intros p Hp; apply elem_of_nil in Hp|]. by intros c Hc _.
  - destruct (extend_some b p) as (Hin & Hcov & Hmin).
    destruct (IH (extend leb (Some b) p)) as (b' & Hb' & Hin' & Hcov' & Hmin').
    exists b'. split; [done|]. split; [by eapply inside_trans|]. split.
    + intros q Hq. apply elem_of_cons in Hq as [->|Hq]; [|by apply Hcov'].
      by eapply covers_inside.
    + intros c Hc Hall. apply Hmin'.
      * apply Hmin; [done|]. apply Hall, elem_of_cons. by left.
      * intros q Hq. apply Hall, elem_of_cons. by right.
Qed.

(** [L.latLngBounds] of at least one valid point is the least box covering
    all of them. *)
Lemma latLngBounds_least (p : LatLng coord) (pts : list (LatLng coord)) :
  exists b, latLngBounds leb (raw <$> (p :: pts)) = Ok (Some b) /\
    (forall q, q ∈ p :: pts -> covers b q) /\
    (forall c, (forall q, q ∈ p :: pts -> covers c q) -> inside b c).
Proof.
  unfold latLngBounds. destruct p as [la lo]. simpl.
  set (p := mkLatLng la lo).
  destruct (extendAll_some pts (mkBounds p p)) as (b & Hb & Hin & Hcov & Hmin).
  exists b. split; [done|]. split.
  - intros q Hq. apply elem_of_cons in Hq as [->|Hq]; [|by apply Hcov].
    eapply covers_inside; [|exact Hin]. repeat split; apply leb_refl.
  - intros c Hall. apply Hmin.
    + destruct (Hall p) as (?&?&?&?); [apply elem_of_cons; by left|]. by repeat split.
    + intros q Hq. apply Hall, elem_of_cons. by right.
Qed.

Local Lemma coordinate_latlon v p :
  coordinate parseFloat v = Some p -> latlon parseFloat v = Ok (raw p).
Proof.
  unfold coordinate. destruct (latlon parseFloat v) as [[[la|] [lo|]]|]; try done.
  intros [= <-]. reflexivity.
Qed.

Local Lemma mapT_coordinates buses : forall pts,
  mapM (coordinate parseFloat) buses = Some pts ->
  mapT (latlon parseFloat) buses = Ok (raw <$> pts).
Proof.
  induction buses as [|v buses IH]; intros pts; simpl.
  - by intros [= <-].
  - destruct (coordinate parseFloat v) as [p|] eqn:Hp; simpl; [|done].
    destruct (mapM (coordinate parseFloat) buses) as [ps|] eqn:Hps; simpl; [|done].
    intros [= <-]. rewrite (coordinate_latlon _ _ Hp). simpl.
    by rewrite (IH ps).
Qed.

(** C7. The viewport fit depends on the vehicles and the user location
    only.  It asks for nothing when there is no vehicle or no user
    location.  Otherwise, all coordinates being numeric, it calls
    [fitBounds] once, with padding (50, 50) and the least axis-aligned box
    that covers every vehicle coordinate and the user coordinate; with one
    vehicle at the user's own position the box is that single point. *)
Theorem FitBounds_least_padded_box :
  (forall userLocation, FitBounds leb parseFloat [] userLocation = Ok None) /\
  (forall buses, FitBounds leb parseFloat buses JNull = Ok None) /\
  (forall buses userLocation pts u,
     buses <> [] -> truthy userLocation = true ->
     mapM (coordinate parseFloat) buses = Some pts ->
     coordinate parseFloat userLocation = Some u ->
     exists box,
       FitBounds leb parseFloat buses userLocation = Ok (Some (fitBounds box (50, 50))) /\
       (forall p, p ∈ pts ++ [u] -> covers box p) /\
       (forall c, (forall p, p ∈ pts ++ [u] -> covers c p) -> inside box c)) /\
  (forall bus userLocation p,
     truthy userLocation = true ->
     coordinate parseFloat bus = Some p ->
     coordinate parseFloat userLocation = Some p ->
     FitBounds leb parseFloat [bus] userLocation
     = Ok (Some (fitBounds (mkBounds p p) (50, 50)))).
Proof.
  split; [done|]. split.
  { intros buses. unfold FitBounds. simpl. by rewrite orb_true_r. }
  split.
  - intros buses loc pts u Hne Hloc Hpts Hu. unfold FitBounds.
    destruct buses as [|v buses]; [done|]. simpl length. rewrite Hloc. simpl orb.
    cbv iota. rewrite (mapT_coordinates _ _ Hpts), (coordinate_latlon _ _ Hu).
    simpl mbind.
    assert (exists q qs, pts ++ [u] = q :: qs) as (q & qs & Hq).
    { destruct pts; simpl; eauto. }
    change ([raw u]) with (raw <$> [u]). rewrite <- fmap_app, Hq.
    destruct (latLngBounds_least q qs) as (b & Hb & Hcov & Hmin).
    exists b. rewrite Hb. by split.
  - intros bus loc [la lo] Hloc Hbus Hu. unfold FitBounds. simpl length.
    rewrite Hloc. simpl orb. cbv iota. simpl mapT.
    rewrite (coordinate_latlon _ _ Hbus), (coordinate_latlon _ _ Hu). simpl.
    unfold Viewport.cmin, Viewport.cmax. by destruct (leb la la), (leb lo lo).
Qed.

End FitBoundsProps.

Lemma FitBounds_least_padded_box_witness :
  exists box,
    Viewport.FitBounds Z.leb Viewport.parseFloat_integral
      [JS.JObj {[ "lat" := JS.JStr "1"; "lon" := JS.JStr "1" ]};
       JS.JObj {[ "lat" := JS.JStr "3"; "lon" := JS.JStr "-2" ]}]
      (JS.JObj {[ "lat" := JS.JNum 2; "lon" := JS.JNum 5 ]})
    = JS.Ok (Some (Viewport.fitBounds box (50, 50))) /\
    (forall p, p ∈ [Viewport.mkLatLng 1 1; Viewport.mkLatLng 3 (-2)] ++ [Viewport.mkLatLng 2 5] ->
       Viewport.covers Z.leb box p) /\
    (forall c, (forall p, p ∈ [Viewport.mkLatLng 1 1; Viewport.mkLatLng 3 (-2)] ++ [Viewport.mkLatLng 2 5] ->
                  Viewport.covers Z.leb c p) -> Viewport.inside Z.leb box c).
Proof.
  assert (Ht : forall a b, (a <=? b) = true \/ (b <=? a) = true) by (intros; lia).
  assert (Hr : forall a b c, (a <=? b) = true -> (b <=? c) = true -> (a <=? c) = true)
    by (intros; lia).
  destruct (FitBounds_least_padded_box Z.leb Viewport.parseFloat_integral Ht Hr) as (_ & _ & H & _).
  apply H; [done | reflexivity | by vm_compute | by vm_compute].
Defined.

(* ===================================================================== *)
(** ** Properties of the cascade *)
(* ===================================================================== *)

Section CascadeProps.
Import JS BusView.

(** *** Bookkeeping *)

Lemma nonempty_true (s : string) : nonempty s = true <-> s <> "".
Proof.
  unfold nonempty. rewrite negb_true_iff. apply String.eqb_neq.
Qed.

Lemma nonempty_false (s : string) : nonempty s = false <-> s = "".
Proof.
  unfold nonempty. rewrite negb_false_iff. apply String.eqb_eq.
Qed.

Lemma ui_step (a : App) (e : Event) :
  ui (step a e) = fst (commit (ui a) (fst (fst (handle a e)))).
Proof.
  unfold step. destruct (handle a e) as [[s' sent] logs]. simpl.
  destruct (commit (ui a) s') as [s'' more]. simpl.
  by destruct (pending a e).
Qed.

Lemma inflight_step (a : App) (e : Event) :
  inflight (step a e) = fst (pending a e) ++ issued a e.
Proof.
  unfold step, issued. destruct (handle a e) as [[s' sent] logs].
  destruct (commit (ui a) s') as [s'' more].
  by destruct (pending a e).
Qed.

(** The effects that follow a render write no collection other than
    [predictions] and no selection other than [selectedStop]. *)
Lemma commit_frame (old new : State) :
  let s := fst (commit old new) in
  routes s = routes new /\ selectedRoute s = selectedRoute new /\
  directions s = directions new /\ direction s = direction new /\
  stops s = stops new /\ vehicles s = vehicles new /\
  userLocation s = userLocation new.
Proof.
  unfold commit, effectDirection.
  repeat case_match; simplify_eq/=; done.
Qed.

(** No dependency changed: no effect runs. *)
Lemma commit_same_deps (old new : State) :
  selectedRoute old = selectedRoute new -> direction old = direction new ->
  commit old new = (new, []).
Proof.
  intros Hr Hd. unfold commit. by rewrite Hr, Hd, !String.eqb_refl.
Qed.

(** Both effects give up at once when no route is selected. *)
Lemma commit_no_route (old new : State) :
  selectedRoute new = "" -> commit old new = (new, []).
Proof.
  intros Hr. unfold commit, effectRoute, effectDirection.
  rewrite Hr. simpl. by repeat case_match; simplify_eq/=.
Qed.

(** With no direction selected only the route effect can act, and it
    writes no state. *)
Lemma commit_no_direction (old new : State) :
  direction new = "" -> fst (commit old new) = new.
Proof.
  intros Hd. unfold commit, effectDirection.
  rewrite Hd. simpl. rewrite andb_false_r.
  by repeat case_match; simplify_eq/=.
Qed.

Lemma settle_handle (a : App) (i : nat) (q : Request) (r : Response) :
  inflight a !! i = Some q ->
  fst (fst (handle a (Settle i r))) = settled q r (ui a).
Proof.
  intros Hq. unfold handle, settled. rewrite Hq.
  by destruct (chain q r (ui a)) as [[s' logs]|].
Qed.

(** Only a successful directions callback touches a dependency, and it
    empties [direction]: the state after a settlement is the state its
    callbacks produce. *)
Lemma ui_settle (a : App) (i : nat) (q : Request) (r : Response) :
  inflight a !! i = Some q ->
  ui (step a (Settle i r)) = settled q r (ui a).
Proof.
  intros Hq. rewrite ui_step, (settle_handle _ _ _ _ Hq).
  unfold settled, chain.
  destruct r as [data|], q; simpl;
    unfold thenRoutes, thenDirections, thenStops, thenVehicles, thenPredictions;
    unfold mbind, Throws_bind;
    repeat case_match; simplify_eq/=;
    solve [ by rewrite commit_same_deps | by rewrite commit_no_direction ].
Qed.

(** *** Route changes and the directions fetch *)

(** The value a directions response leaves in [directions]. *)
Lemma settled_directions (rt : string) (r : Response) (s : State) :
  directions (settled (GetDirections rt) r s) =
  match r with
  | Resolved data =>
      match payload (GetDirections rt) data with
      | Ok d => or_else d empty
      | Throw => empty
      end
  | Rejected => empty
  end.
Proof.
  unfold settled, chain, payload. destruct r as [data|]; simpl; [|done].
  unfold thenDirections, mbind, Throws_bind.
  by repeat case_match; simplify_eq/=.
Qed.

(** C1, as the code has it.  A directions response is applied when it
    arrives, whatever route is selected by then: [directions] becomes the
    [directions] field of the body (the empty sequence if the field is
    absent or falsy), or the empty sequence if the request failed or the
    body has no envelope.  The new value does not depend on the state or on
    the route the request was sent for. *)
Theorem directions_applied_on_arrival
    (a : App) (i : nat) (rt : string) (r : Response) :
  inflight a !! i = Some (GetDirections rt) ->
  directions (ui (step a (Settle i r))) =
  match r with
  | Resolved data =>
      match payload (GetDirections rt) data with
      | Ok d => or_else d empty
      | Throw => empty
      end
  | Rejected => empty
  end.
Proof.
  intros Hq. rewrite (ui_settle _ _ _ _ Hq). apply settled_directions.
Qed.

Lemma directions_applied_on_arrival_witness :
  directions (ui (step (run mount Scenario.quickSuccession)
                       (Settle 0 (Resolved (Scenario.body "directions" Scenario.directions22)))))
  = Scenario.directions22.
Proof.
  rewrite (directions_applied_on_arrival _ 0%nat "22"); [|by vm_compute].
  by vm_compute.
Defined.

(** C1, as stated, fails: route 22 then route 9 are chosen, the answer for
    route 9 arrives, then the answer for route 22 overwrites it. *)
Lemma stale_directions_overwrite : ~ Stated.superseded_directions_discarded.
Proof.
  intros H.
  pose proof (H Scenario.quickSuccession 0%nat "22"
                (Resolved (Scenario.body "directions" Scenario.directions22))) as E.
  cbv zeta in E.
  apply (f_equal (fun v =>
    match v with JArr (JObj m :: _) => m !! "dir" | _ => None end)) in E.
  - vm_compute in E. discriminate E.
  - by vm_compute.
  - by vm_compute.
  - vm_compute. discriminate.
Qed.

(** C2, as the code has it.  Choosing a route changes the route and leaves
    [direction], [directions], [stops] and [vehicles] as they were; when
    the directions request of a route resolves with a body that has the
    envelope, [direction] and [selectedStop] become empty, [stops],
    [predictions] and [vehicles] become empty sequences, the
    prediction-attempted flag becomes false, and the body's field goes to
    [directions] only. *)
Theorem route_change_clears_on_arrival :
  (forall (a : App) (r : string),
     let s := ui (step a (ChooseRoute r)) in
     selectedRoute s = r /\ direction s = direction (ui a) /\
     directions s = directions (ui a) /\ stops s = stops (ui a) /\
     vehicles s = vehicles (ui a)) /\
  (forall (a : App) (i : nat) (rt : string) (data d : JSValue),
     inflight a !! i = Some (GetDirections rt) ->
     payload (GetDirections rt) data = Ok d ->
     let s := ui (step a (Settle i (Resolved data))) in
     directions s = or_else d empty /\
     direction s = "" /\ selectedStop s = "" /\ stops s = empty /\
     predictions s = empty /\ vehicles s = empty /\
     predictionAttempted s = false /\
     routes s = routes (ui a) /\ selectedRoute s = selectedRoute (ui a) /\
     userLocation s = userLocation (ui a) /\ stopsLoaded s = stopsLoaded (ui a)).
Proof.
  split.
  - intros a r s. subst s. rewrite ui_step. simpl.
    destruct (commit_frame (ui a) (setSelectedRoute r (ui a)))
      as (_ & Hr & Hds & Hd & Hs & Hv & _).
    by rewrite Hr, Hds, Hd, Hs, Hv.
  - intros a i rt data d Hq Hp s. subst s. rewrite (ui_settle _ _ _ _ Hq).
    unfold settled, chain, payload in *. simpl in *.
    unfold thenDirections, mbind, Throws_bind in *.
    destruct (get data "bustime-response") as [env|]; [|done].
    rewrite Hp. by simpl.
Qed.

Lemma route_change_clears_on_arrival_witness :
  let s := ui (step (run mount Scenario.route22)
                    (Settle 0 (Resolved (Scenario.body "directions" Scenario.directions22)))) in
  directions s = or_else Scenario.directions22 empty /\
  direction s = "" /\ selectedStop s = "" /\ stops s = empty /\
  predictions s = empty /\ vehicles s = empty /\
  predictionAttempted s = false /\
  routes s = routes (ui (run mount Scenario.route22)) /\
  selectedRoute s = selectedRoute (ui (run mount Scenario.route22)) /\
  userLocation s = userLocation (ui (run mount Scenario.route22)) /\
  stopsLoaded s = stopsLoaded (ui (run mount Scenario.route22)).
Proof.
  destruct route_change_clears_on_arrival as [_ H].
  apply (H _ 0%nat "22"); by vm_compute.
Defined.

(** C2, as stated, fails: with route 22, Northbound and stop 1 selected
    and everything loaded, choosing route 9 leaves the direction (and the
    stops and vehicles of route 22) in place. *)
Lemma route_change_keeps_direction : ~ Stated.route_change_clears_at_once.
Proof.
  intros H. destruct (H Scenario.rider "9") as (Hd & _); [by vm_compute|].
  vm_compute in Hd. discriminate Hd.
Qed.

(** *** Failed fetches *)

(** The promise chain always ends fulfilled. *)
Lemma chain_handles_everything (q : Request) (r : Response) (s : State) :
  exists out, chain q r s = Ok out.
Proof.
  unfold chain. destruct r as [data|]; [|by eauto].
  destruct (onFulfilled q data s); by eauto.
Qed.

Lemma settled_unusable (q : Request) (r : Response) (s : State) :
  (forall sid rt, q <> GetPredictions sid rt) ->
  unusable q r -> collection q (settled q r s) = empty.
Proof.
  intros Hq Hr. unfold settled, chain, unusable, payload in *.
  destruct r as [data|], q; simpl in *;
    try done; try (by exfalso; eapply Hq);
    unfold thenRoutes, thenDirections, thenStops, thenVehicles, or_else,
      mbind, Throws_bind in *;
    repeat case_match; simplify_eq/=; (done || congruence).
Qed.

Lemma settled_predictions (sid rt : string) (r : Response) (s : State) :
  settled (GetPredictions sid rt) r s =
  match r with
  | Resolved data =>
      match payload (GetPredictions sid rt) data with
      | Ok d => setPredictionAttempted true (setPredictions (or_else d empty) s)
      | Throw => s
      end
  | Rejected => s
  end.
Proof.
  unfold settled, chain, payload. destruct r as [data|]; simpl; [|done].
  unfold thenPredictions, mbind, Throws_bind.
  by repeat case_match; simplify_eq/=.
Qed.

(** C3, as the code has it.  No callback lets an exception escape.  For
    routes, directions, stops and vehicles, a rejected request, a body
    without the envelope, or an absent or falsy field (for routes: a field
    that is not an array) sets the collection to the empty sequence.  For
    predictions, an absent or falsy [prd] field under the envelope sets
    them to the empty sequence, while a rejected request or a body without
    the envelope leaves them as they were. *)
Theorem failed_fetch_degrades :
  (forall q r s, exists out, chain q r s = Ok out) /\
  (forall (a : App) (i : nat) (q : Request) (r : Response),
     inflight a !! i = Some q ->
     (forall sid rt, q <> GetPredictions sid rt) ->
     unusable q r ->
     collection q (ui (step a (Settle i r))) = empty) /\
  (forall (a : App) (i : nat) (sid rt : string) (data d : JSValue),
     inflight a !! i = Some (GetPredictions sid rt) ->
     payload (GetPredictions sid rt) data = Ok d -> truthy d = false ->
     predictions (ui (step a (Settle i (Resolved data)))) = empty) /\
  (forall (a : App) (i : nat) (sid rt : string) (r : Response),
     inflight a !! i = Some (GetPredictions sid rt) ->
     r = Rejected \/
       (exists data, r = Resolved data /\ payload (GetPredictions sid rt) data = Throw) ->
     predictions (ui (step a (Settle i r))) = predictions (ui a)).
Proof.
  split; [exact chain_handles_everything|]. split; [|split].
  - intros a i q r Hq Hnp Hr. rewrite (ui_settle _ _ _ _ Hq).
    by apply settled_unusable.
  - intros a i sid rt data d Hq Hp Hd.
    rewrite (ui_settle _ _ _ _ Hq), settled_predictions, Hp. simpl.
    unfold or_else. by rewrite Hd.
  - intros a i sid rt r Hq Hr.
    rewrite (ui_settle _ _ _ _ Hq), settled_predictions.
    destruct Hr as [->|(data & -> & Hp)]; [done|]. by rewrite Hp.
Qed.

Lemma failed_fetch_degrades_witness :
  collection (GetStops "22" "Northbound")
    (ui (step (run mount Scenario.northbound22)
              (Settle 0 (Resolved (JObj {[ "error" := JStr "no data" ]}))))) = empty.
Proof.
  destruct failed_fetch_degrades as (_ & H & _).
  apply H; [by vm_compute | done | by vm_compute].
Defined.

(** C3, as stated, fails for the predictions: after the rider of the
    scenario got arrivals, a second Get Predictions whose request is
    rejected leaves the earlier arrivals in [predictions]. *)
Lemma rejected_predictions_stay : ~ Stated.every_failure_empties.
Proof.
  intros H.
  pose proof (H (Scenario.rider ++ [ClickGetPredictions]) 0%nat
                (GetPredictions "1" "22") Rejected) as E.
  cbv zeta in E.
  assert (Hc : collection (GetPredictions "1" "22")
                 (ui (step (run mount (Scenario.rider ++ [ClickGetPredictions]))
                           (Settle 0 Rejected))) = Scenario.arrivals)
    by (by vm_compute).
  rewrite Hc in E.
  assert (Scenario.arrivals = empty) as E'.
  { apply E; [by vm_compute | by vm_compute |]. by intros (data & l & [=] & _). }
  vm_compute in E'. discriminate E'.
Qed.

(** The setters store a truthy field as it is: a field that is not an array
    reaches the view, where [stops.map] fails.  (The routes callback tests
    [Array.isArray] first.) *)
Example non_array_field_is_stored :
  let a := step (run mount Scenario.northbound22)
                (Settle 0 (Resolved (Scenario.body "stops" (JStr "unavailable")))) in
  stops (ui a) = JStr "unavailable" /\ stopSection (ui a) = RenderError.
Proof. by vm_compute. Qed.

(** *** Direction changes: the stops and vehicles fetches *)

Lemma settled_stops (rt d : string) (r : Response) (s : State) :
  settled (GetStops rt d) r s =
  setStopsLoaded true
    (setStops match r with
              | Resolved data =>
                  match payload (GetStops rt d) data with
                  | Ok v => or_else v empty
                  | Throw => empty
                  end
              | Rejected => empty
              end s).
Proof.
  unfold settled, chain, payload. destruct r as [data|]; simpl; [|done].
  unfold thenStops, mbind, Throws_bind.
  by repeat case_match; simplify_eq/=.
Qed.

Lemma settled_vehicles (rt : string) (r : Response) (s : State) :
  settled (GetVehicles rt) r s =
  setVehicles match r with
              | Resolved data =>
                  match payload (GetVehicles rt) data with
                  | Ok v => or_else v empty
                  | Throw => empty
                  end
              | Rejected => empty
              end s.
Proof.
  unfold settled, chain, payload. destruct r as [data|]; simpl; [|done].
  unfold thenVehicles, mbind, Throws_bind.
  by repeat case_match; simplify_eq/=.
Qed.

(** C4, as the code has it.  With a route selected, choosing a new
    non-empty direction sends exactly two requests: the stops of the
    (route, direction) pair and the vehicles of the route.  A failed stops
    request empties [stops] and sets the stops-loaded flag, and no stops
    response touches [vehicles]; a failed vehicles request empties
    [vehicles], no vehicles response touches [stops] or any flag (the
    vehicles have no completion flag); and the two responses may be applied
    in either order with the same result. *)
Theorem direction_change_fetches_are_independent :
  (forall (a : App) (d : string),
     selectedRoute (ui a) <> "" -> d <> "" -> d <> direction (ui a) ->
     issued a (ChooseDirection d)
     = [GetStops (selectedRoute (ui a)) d; GetVehicles (selectedRoute (ui a))]) /\
  (forall (a : App) (i : nat) (rt d : string),
     inflight a !! i = Some (GetStops rt d) ->
     let s := ui (step a (Settle i Rejected)) in
     stops s = empty /\ stopsLoaded s = true) /\
  (forall (a : App) (i : nat) (rt d : string) (r : Response),
     inflight a !! i = Some (GetStops rt d) ->
     vehicles (ui (step a (Settle i r))) = vehicles (ui a)) /\
  (forall (a : App) (i : nat) (rt : string),
     inflight a !! i = Some (GetVehicles rt) ->
     vehicles (ui (step a (Settle i Rejected))) = empty) /\
  (forall (a : App) (i : nat) (rt : string) (r : Response),
     inflight a !! i = Some (GetVehicles rt) ->
     let s := ui (step a (Settle i r)) in
     stops s = stops (ui a) /\ stopsLoaded s = stopsLoaded (ui a) /\
     predictionAttempted s = predictionAttempted (ui a)) /\
  (forall (s : State) (rt d rt' : string) (r r' : Response),
     settled (GetVehicles rt') r' (settled (GetStops rt d) r s)
     = settled (GetStops rt d) r (settled (GetVehicles rt') r' s)).
Proof.
  split; [|split; [|split; [|split; [|split]]]].
  - intros a d Hr Hd Hne. unfold issued, commit, effectRoute, effectDirection. simpl.
    rewrite String.eqb_refl. simpl.
    apply String.eqb_neq in Hne. rewrite String.eqb_sym in Hne. rewrite Hne. simpl.
    apply nonempty_true in Hr, Hd. by rewrite Hr, Hd.
  - intros a i rt d Hq s. subst s.
    by rewrite (ui_settle _ _ _ _ Hq), settled_stops.
  - intros a i rt d r Hq. by rewrite (ui_settle _ _ _ _ Hq), settled_stops.
  - intros a i rt Hq. by rewrite (ui_settle _ _ _ _ Hq), settled_vehicles.
  - intros a i rt r Hq s. subst s.
    by rewrite (ui_settle _ _ _ _ Hq), settled_vehicles.
  - intros s rt d rt' r r'. by rewrite !settled_stops, !settled_vehicles.
Qed.

Lemma direction_change_fetches_are_independent_witness :
  issued (run mount Scenario.directionsOf22) (ChooseDirection "Northbound")
  = [GetStops "22" "Northbound"; GetVehicles "22"].
Proof.
  destruct direction_change_fetches_are_independent as (H & _).
  apply (H (run mount Scenario.directionsOf22) "Northbound"); by vm_compute.
Defined.

(** C4, as stated, fails for the vehicles: when their request is rejected
    while the stops are still loading, [vehicles] is emptied and both flags
    of the state are false. *)
Lemma vehicle_failure_raises_no_flag : ~ Stated.each_failure_raises_a_flag.
Proof.
  intros H.
  destruct (H Scenario.northbound22 1%nat (GetVehicles "22"))
    as (_ & [E|E]).
  - by vm_compute.
  - by vm_compute.
  - right. by eexists.
  - vm_compute in E. discriminate E.
  - vm_compute in E. discriminate E.
Qed.

(** *** Predictions *)

(** C5.  Predictions are requested by the button only: no other event
    sends a predictions request, and the button sends none when no stop is
    selected (the click changes nothing at all).  When the request
    resolves with the envelope, [predictions] is replaced (by the [prd]
    field, or by the empty sequence when the field is absent or falsy) and
    the prediction-attempted flag is set.  When it is rejected, or the body
    has no envelope, the whole state is left as it was: earlier predictions
    and the flag stay. *)
Theorem predictions_manual_and_kept_on_failure :
  (forall (a : App) (e : Event) (sid rt : string),
     e <> ClickGetPredictions -> GetPredictions sid rt ∉ issued a e) /\
  (forall (a : App),
     selectedStop (ui a) = "" -> step a ClickGetPredictions = a) /\
  (forall (a : App),
     selectedStop (ui a) <> "" ->
     issued a ClickGetPredictions
     = [GetPredictions (selectedStop (ui a)) (selectedRoute (ui a))]) /\
  (forall (a : App) (i : nat) (sid rt : string) (data d : JSValue),
     inflight a !! i = Some (GetPredictions sid rt) ->
     payload (GetPredictions sid rt) data = Ok d ->
     let s := ui (step a (Settle i (Resolved data))) in
     predictions s = or_else d empty /\ predictionAttempted s = true) /\
  (forall (a : App) (i : nat) (sid rt : string) (r : Response),
     inflight a !! i = Some (GetPredictions sid rt) ->
     r = Rejected \/
       (exists data, r = Resolved data /\ payload (GetPredictions sid rt) data = Throw) ->
     ui (step a (Settle i r)) = ui a).
Proof.
  split; [|split; [|split; [|split]]].
  - intros a e sid rt He Hin. unfold issued in Hin.
    destruct (handle a e) as [[s' sent] logs] eqn:Hh.
    apply elem_of_app in Hin as [Hin|Hin].
    + destruct e; simpl in Hh; try done;
        repeat case_match; simplify_eq/=; by apply elem_of_nil in Hin.
    + unfold commit, effectRoute, effectDirection in Hin.
      repeat case_match; simplify_eq/=;
        repeat (apply elem_of_cons in Hin as [Hin|Hin]; [discriminate Hin|]);
        by apply elem_of_nil in Hin.
  - intros a Hs. unfold step, handle, getPredictions, pending.
    apply nonempty_false in Hs. rewrite Hs.
    rewrite commit_same_deps by done. simpl.
    rewrite !app_nil_r. by destruct a.
  - intros a Hs. unfold issued, handle, getPredictions.
    apply nonempty_true in Hs. rewrite Hs.
    rewrite commit_same_deps by done. by simpl.
  - intros a i sid rt data d Hq Hp s. subst s.
    by rewrite (ui_settle _ _ _ _ Hq), settled_predictions, Hp.
  - intros a i sid rt r Hq Hr.
    rewrite (ui_settle _ _ _ _ Hq), settled_predictions.
    destruct Hr as [->|(data & -> & Hp)]; [done|]. by rewrite Hp.
Qed.

Lemma predictions_manual_and_kept_on_failure_witness :
  ui (step (run mount (Scenario.rider ++ [ClickGetPredictions])) (Settle 0 Rejected))
  = ui (run mount (Scenario.rider ++ [ClickGetPredictions])).
Proof.
  destruct predictions_manual_and_kept_on_failure as (_ & _ & _ & _ & H).
  apply (H _ 0%nat "1" "22"); [by vm_compute | by left].
Defined.

(** *** Reset *)

(** C6.  One click on Reset is one transition, after which the route,
    direction and stop selections, the directions, stops, predictions and
    vehicles, the user location and both flags have their mount values
    (only the route list is kept); it sends no request. *)
Theorem reset_restores_mount_values (a : App) :
  ui (step a ClickReset) = setRoutes (routes (ui a)) initial /\
  issued a ClickReset = [] /\
  inflight (step a ClickReset) = inflight a.
Proof.
  assert (Hc : commit (ui a) (resetApp (ui a)) = (resetApp (ui a), []))
    by (by apply commit_no_route).
  split; [|split].
  - rewrite ui_step. simpl. by rewrite Hc.
  - unfold issued. simpl. by rewrite Hc.
  - rewrite inflight_step. unfold issued. simpl. rewrite Hc. simpl.
    by rewrite app_nil_r.
Qed.

(** *** The empty route *)

(** C10.  Choosing the placeholder of the route select (the empty value)
    changes the route cell and nothing else: no request is sent and
    [direction], [selectedStop], [directions], [stops], [predictions],
    [vehicles], the flags and the requests in flight stay as they were. *)
Theorem empty_route_changes_nothing_else (a : App) :
  step a (ChooseRoute "")
  = mkApp (setSelectedRoute "" (ui a)) (inflight a) (locating a) (console a) /\
  issued a (ChooseRoute "") = [].
Proof.
  assert (Hc : commit (ui a) (setSelectedRoute "" (ui a)) = (setSelectedRoute "" (ui a), []))
    by (by apply commit_no_route).
  split.
  - unfold step. simpl. rewrite Hc. simpl. by rewrite !app_nil_r.
  - unfold issued. simpl. by rewrite Hc.
Qed.

(** *** The stops-loaded flag and the stop section *)

Lemma commit_keeps_flag_down (old new : State) :
  stopsLoaded new = false -> stopsLoaded (fst (commit old new)) = false.
Proof.
  intros H. unfold commit, effectDirection.
  by repeat case_match; simplify_eq/=.
Qed.

Lemma handle_keeps_flag_down (a : App) (e : Event) :
  (forall i r, e <> Settle i r) ->
  stopsLoaded (ui a) = false -> stopsLoaded (fst (fst (handle a e))) = false.
Proof.
  intros He H. destruct e as [v|v|v| | |i r|la lo|]; try done.
  - by exfalso; eapply He.
  - unfold handle. by destruct (locating a).
  - unfold handle. by destruct (locating a).
Qed.

(** Events other than the completion of a stops request never raise the
    flag. *)
Lemma stopsLoaded_raised_by_stops_only (a : App) (e : Event) :
  stopsLoaded (ui a) = false -> stopsLoaded (ui (step a e)) = true ->
  exists i r rt d, e = Settle i r /\ inflight a !! i = Some (GetStops rt d).
Proof.
  intros H0 H1.
  assert ((exists i r, e = Settle i r) \/ (forall i r, e <> Settle i r))
    as [(i & r & ->)|He] by (destruct e; by eauto).
  - destruct (inflight a !! i) as [q|] eqn:Hq.
    + destruct q as [|rt|rt d|rt|sid rt]; [| |by eauto 6| |];
        rewrite (ui_settle _ _ _ _ Hq) in H1;
        unfold settled, chain in H1; destruct r as [data|]; simpl in H1;
        unfold thenRoutes, thenDirections, thenVehicles, thenPredictions,
          mbind, Throws_bind in H1;
        repeat case_match; simplify_eq/=; congruence.
    + rewrite ui_step in H1. unfold handle in H1. rewrite Hq in H1. simpl in H1.
      rewrite commit_same_deps in H1 by done. simpl in H1. congruence.
  - rewrite ui_step in H1.
    rewrite commit_keeps_flag_down in H1; [done|].
    by apply handle_keeps_flag_down.
Qed.

Lemma stops_request_lowers_flag (a : App) (e : Event) (rt d : string) :
  GetStops rt d ∈ issued a e -> stopsLoaded (ui (step a e)) = false.
Proof.
  intros Hin. rewrite ui_step. unfold issued in Hin.
  destruct (handle a e) as [[s' sent] logs] eqn:Hh. simpl.
  apply elem_of_app in Hin as [Hin|Hin].
  - destruct e; simpl in Hh; unfold getPredictions in Hh;
      repeat case_match; simplify_eq/=;
      repeat (apply elem_of_cons in Hin as [Hin|Hin]; [discriminate Hin|]);
      by apply elem_of_nil in Hin.
  - unfold commit, effectRoute, effectDirection in *.
    repeat case_match; simplify_eq/=; try done;
      repeat (apply elem_of_cons in Hin as [Hin|Hin]; [discriminate Hin|]);
      by apply elem_of_nil in Hin.
Qed.

Lemma stopSection_no_data (s : State) :
  stopSection s = NoStopData <->
  direction s <> "" /\ stopsLoaded s = true /\
  exists n, length_of (stops s) = Ok n /\ greater_than_zero n = Some false.
Proof.
  unfold stopSection.
  destruct (nonempty (direction s)) eqn:Hd.
  2:{ apply nonempty_false in Hd. split; [done|]. by intros (? & _). }
  apply nonempty_true in Hd.
  destruct (length_of (stops s)) as [n|].
  2:{ split; [done|]. by intros (_ & _ & n & [=] & _). }
  destruct (greater_than_zero n) as [[]|] eqn:Hn.
  - split; [by destruct (stops s)|]. intros (_ & _ & m & [= <-] & ?). congruence.
  - destruct (stopsLoaded s); split; try done; [by eauto|]. by intros (_ & [=] & _).
  - split; [done|]. intros (_ & _ & m & [= <-] & ?). congruence.
Qed.

(** C9, as the code has it.  Every event that sends a stops request
    leaves the stops-loaded flag false; the flag goes from false to true
    only when a stops request completes, and every completion, successful
    or not, sets it.  The "no stop data" message is shown exactly when a
    direction is selected, the flag is true and the stops are empty: never
    while the flag is false.  A direction change does not touch [stops]. *)
Theorem stops_flag_tracks_stops_fetch :
  (forall (a : App) (e : Event) (rt d : string),
     GetStops rt d ∈ issued a e -> stopsLoaded (ui (step a e)) = false) /\
  (forall (a : App) (e : Event),
     stopsLoaded (ui a) = false -> stopsLoaded (ui (step a e)) = true ->
     exists i r rt d, e = Settle i r /\ inflight a !! i = Some (GetStops rt d)) /\
  (forall (a : App) (i : nat) (rt d : string) (r : Response),
     inflight a !! i = Some (GetStops rt d) ->
     stopsLoaded (ui (step a (Settle i r))) = true) /\
  (forall (s : State) (l : list JSValue),
     stops s = JArr l ->
     (stopSection s = NoStopData <->
      direction s <> "" /\ stopsLoaded s = true /\ l = [])) /\
  (forall (s : State),
     stopsLoaded s = false -> stopSection s <> NoStopData) /\
  (forall (a : App) (d : string),
     stops (ui (step a (ChooseDirection d))) = stops (ui a)).
Proof.
  split; [exact stops_request_lowers_flag|].
  split; [exact stopsLoaded_raised_by_stops_only|].
  split; [|split; [|split]].
  - intros a i rt d r Hq. by rewrite (ui_settle _ _ _ _ Hq), settled_stops.
  - intros s l Hl. rewrite stopSection_no_data, Hl. simpl.
    split.
    + intros (Hd & Hf & n & [= <-] & Hn). repeat split; [done..|].
      destruct l; [done|]. simpl in Hn. by vm_compute in Hn.
    + intros (Hd & Hf & ->). by eauto.
  - intros s Hf Hs. apply stopSection_no_data in Hs as (_ & Ht & _). congruence.
  - intros a d. rewrite ui_step. simpl.
    by destruct (commit_frame (ui a) (setDirection d (ui a))) as (_&_&_&_&->&_).
Qed.

Lemma stops_flag_tracks_stops_fetch_witness :
  stopsLoaded (ui (step (run mount Scenario.directionsOf22)
                        (ChooseDirection "Northbound"))) = false.
Proof.
  destruct stops_flag_tracks_stops_fetch as (H & _).
  apply (H _ _ "22" "Northbound"). vm_compute. apply list_elem_of_here.
Defined.

(** C9, as stated, fails: the rider of the scenario, with the stops of
    Northbound on screen, switches to Southbound; while the new stops
    request is in flight the old stop list is still shown. *)
Lemma old_stop_list_shown_while_loading : ~ Stated.pending_stops_show_nothing.
Proof.
  intros H.
  destruct (H (Scenario.rider ++ [ChooseDirection "Southbound"]) "22" "Southbound")
    as [E|E].
  - by vm_compute.
  - vm_compute. apply list_elem_of_here.
  - vm_compute in E. discriminate E.
  - vm_compute in E. discriminate E.
Qed.

(** *** The scenario of the specification *)

Example rider_session :
  let s := ui (run mount Scenario.rider) in
  selectedRoute s = "22" /\ direction s = "Northbound" /\ selectedStop s = "1" /\
  stops s = Scenario.stopList /\ vehicles s = Scenario.vehicleList /\
  predictions s = Scenario.arrivals /\ predictionAttempted s = true /\
  stopsLoaded s = true /\ inflight (run mount Scenario.rider) = [] /\
  Format.formatTime "12/25 14:10" = Ok "2:10 PM" /\
  session mount Scenario.rider = true.
Proof. by vm_compute. Qed.

End CascadeProps.

(* ===================================================================== *)
(** ** More on formatTime *)
(* ===================================================================== *)

Section FormatTimeEdges.
Import JS Format.

Lemma split_nonempty (c : ascii) (s : string) : split c s <> [].
Proof.
  induction s as [|d s IH]; simpl; [done|].
  destruct (Ascii.eqb d c); [done|]. by destruct (split c s).
Qed.

(** There is a second piece exactly when the separator occurs. *)
Lemma split_second (c : ascii) (s : string) :
  split c s !! 1%nat = None <-> contains c s = false.
Proof.
  induction s as [|d s IH]; simpl; [done|].
  destruct (Ascii.eqb d c); simpl.
  - pose proof (split_nonempty c s). destruct (split c s); [done|]. by split.
  - pose proof (split_nonempty c s). by destruct (split c s).
Qed.

(** X1.  [formatTime] throws exactly on a timestamp without a space;
    whatever else the string holds, a space is enough for it to return. *)
Theorem formatTime_throws_without_space (timestamp : string) :
  formatTime timestamp = Throw <-> contains " " timestamp = false.
Proof.
  unfold formatTime. rewrite <- split_second.
  by destruct (split " " timestamp !! 1%nat).
Qed.

(** The time field alone decides the result. *)
Lemma formatTime_of_time (ts ts' : string) :
  split " " ts !! 1%nat = split " " ts' !! 1%nat -> formatTime ts = formatTime ts'.
Proof. unfold formatTime. by intros ->. Qed.

(** X2.  Only the second space-separated field of the timestamp is read,
    and of it only the first two colon-separated fields: a time zone after
    the time, or seconds after the minute, change nothing. *)
Theorem formatTime_ignores_the_rest :
  (forall date time rest,
     contains " " date = false -> contains " " time = false ->
     formatTime (date +:+ " " +:+ time +:+ " " +:+ rest)
     = formatTime (date +:+ " " +:+ time)) /\
  (forall date hour minute seconds,
     contains " " date = false -> contains " " hour = false ->
     contains " " minute = false -> contains " " seconds = false ->
     contains ":" hour = false -> contains ":" minute = false ->
     formatTime (date +:+ " " +:+ hour +:+ ":" +:+ minute +:+ ":" +:+ seconds)
     = formatTime (date +:+ " " +:+ hour +:+ ":" +:+ minute)).
Proof.
  split.
  - intros date time rest Hd Ht. apply formatTime_of_time.
    change (date +:+ " " +:+ time +:+ " " +:+ rest)
      with (date +:+ String " " (time +:+ String " " rest)).
    change (date +:+ " " +:+ time) with (date +:+ String " " time).
    rewrite !(split_at_first _ _ _ Hd), (split_at_first _ _ _ Ht).
    by rewrite (split_without _ _ Ht).
  - intros date hour minute seconds Hd Hh Hm Hs Hh' Hm'. unfold formatTime.
    change (date +:+ " " +:+ hour +:+ ":" +:+ minute +:+ ":" +:+ seconds)
      with (date +:+ String " " (hour +:+ String ":" (minute +:+ String ":" seconds))).
    change (date +:+ " " +:+ hour +:+ ":" +:+ minute)
      with (date +:+ String " " (hour +:+ String ":" minute)).
    rewrite !(split_at_first _ _ _ Hd).
    rewrite !split_without.
    2:{ rewrite contains_app. simpl. by rewrite Hh, Hm. }
    2:{ rewrite contains_app. simpl. rewrite contains_app. simpl.
        by rewrite Hh, Hm, Hs. }
    simpl. rewrite !(split_at_first _ _ _ Hh'), (split_at_first _ _ _ Hm').
    by rewrite (split_without _ _ Hm').
Qed.

Lemma formatTime_ignores_the_rest_witness :
  formatTime ("12/25" +:+ " " +:+ "14" +:+ ":" +:+ "10" +:+ ":" +:+ "30")
  = formatTime ("12/25" +:+ " " +:+ "14" +:+ ":" +:+ "10").
Proof.
  destruct formatTime_ignores_the_rest as [_ H]. by apply H.
Defined.



End FormatTimeEdges.

(* ===================================================================== *)
(** ** More on FitBounds *)
(* ===================================================================== *)

Section FitBoundsEdges.
Import JS Viewport.

Context {coord : Type}.
Variable leb : coord -> coord -> bool.
Variable parseFloat : JSValue -> option coord.

Lemma mapT_elem {A B} (f : A -> Throws B) (l : list A) : forall k x,
  mapT f l = Ok k -> x ∈ l -> exists y, y ∈ k /\ f x = Ok y.
Proof.
  induction l as [|a l IH]; intros k x; simpl.
  - intros _ Hx. by apply elem_of_nil in Hx.
  - destruct (f a) as [b|] eqn:Hb; simpl; [|done].
    destruct (mapT f l) as [bs|] eqn:Hbs; simpl; [|done].
    intros [= <-] Hx. apply elem_of_cons in Hx as [->|Hx].
    + exists b. split; [apply elem_of_cons; by left | done].
    + destruct (IH bs x eq_refl Hx) as (y & Hy & Hf).
      exists y. split; [apply elem_of_cons; by right | done].
Qed.

(** Leaflet stops at the first point it cannot accept. *)
Lemma extendAll_rejects (pts : list (option coord * option coord)) : forall b r,
  r ∈ pts -> toLatLng r = Throw -> extendAll leb b pts = Throw.
Proof.
  induction pts as [|p pts IH]; intros b r Hr Ht; simpl.
  - by apply elem_of_nil in Hr.
  - apply elem_of_cons in Hr as [<-|Hr]; [by rewrite Ht|].
    destruct (toLatLng p) as [q|]; simpl; [|done]. by eapply IH.
Qed.

Lemma extendAll_accepts (pts : list (LatLng coord)) : forall b,
  exists b', extendAll leb (Some b) (raw <$> pts) = Ok (Some b').
Proof.
  induction pts as [|p pts IH]; intros b; simpl; [by eauto|].
  apply IH.
Qed.

Lemma coordinate_missing (v : JSValue) (r : option coord * option coord) :
  coordinate parseFloat v = None -> latlon parseFloat v = Ok r -> toLatLng r = Throw.
Proof.
  unfold coordinate. intros Hc Hr. rewrite Hr in Hc.
  by destruct r as [[la|] [lo|]].
Qed.

Lemma mapT_numeric (buses : list JSValue) :
  Forall (fun v => is_Some (coordinate parseFloat v)) buses ->
  exists pts, mapT (latlon parseFloat) buses = Ok (raw <$> pts).
Proof.
  induction 1 as [|v buses [p Hp] _ [pts IH]]; simpl; [by exists []|].
  exists (p :: pts). rewrite (coordinate_latlon _ _ _ Hp). simpl. by rewrite IH.
Qed.

(** A vehicle or a location without numeric coordinates makes the effect
    throw. *)
Lemma FitBounds_rejects (buses : list JSValue) (loc v : JSValue) :
  buses <> [] -> truthy loc = true ->
  v ∈ buses ++ [loc] -> coordinate parseFloat v = None ->
  FitBounds leb parseFloat buses loc = Throw.
Proof.
  intros Hne Hloc Hv Hc. unfold FitBounds.
  destruct buses as [|b0 buses]; [done|]. simpl length. rewrite Hloc. simpl orb.
  cbv iota.
  destruct (mapT (latlon parseFloat) (b0 :: buses)) as [raws|] eqn:Hm; [|done].
  destruct (latlon parseFloat loc) as [u|] eqn:Hu; [|done]. simpl mbind.
  assert (exists r, r ∈ raws ++ [u] /\ toLatLng r = Throw) as (r & Hr & Ht).
  { apply elem_of_app in Hv as [Hv|Hv].
    - destruct (mapT_elem _ _ _ _ Hm Hv) as (r & Hr & Hl).
      exists r. split; [apply elem_of_app; by left|]. by eapply coordinate_missing.
    - apply elem_of_cons in Hv as [->|Hv]; [|by apply elem_of_nil in Hv].
      exists u. split; [|by eapply coordinate_missing].
      apply elem_of_app. right. apply list_elem_of_here. }
  unfold latLngBounds. by rewrite (extendAll_rejects _ None r Hr Ht).
Qed.

(** With numeric coordinates throughout it calls [fitBounds]. *)
Lemma FitBounds_accepts (buses : list JSValue) (loc : JSValue) :
  buses <> [] -> truthy loc = true ->
  Forall (fun v => is_Some (coordinate parseFloat v)) (buses ++ [loc]) ->
  exists box, FitBounds leb parseFloat buses loc = Ok (Some (fitBounds box (50, 50))).
Proof.
  intros Hne Hloc Hall. apply Forall_app in Hall as [Hb Hl].
  apply Forall_cons in Hl as [[u Hu] _].
  destruct (mapT_numeric _ Hb) as [pts Hpts].
  unfold FitBounds. destruct buses as [|b0 buses]; [done|]. simpl length.
  rewrite Hloc. simpl orb. cbv iota.
  rewrite Hpts, (coordinate_latlon _ _ _ Hu). simpl mbind.
  change ([raw u]) with (raw <$> [u]). rewrite <- fmap_app.
  destruct (pts ++ [u]) as [|q qs] eqn:Hq; [by destruct pts|].
  unfold latLngBounds. destruct q as [la lo]. simpl.
  destruct (extendAll_accepts qs (mkBounds (mkLatLng la lo) (mkLatLng la lo)))
    as [b' Hb'].
  exists b'. unfold fmap in Hb'. by rewrite Hb'.
Qed.

(** X4.  With at least one vehicle and a user location, the effect never
    returns quietly: it throws exactly when some vehicle, or the location,
    lacks a numeric [lat] or [lon] (Leaflet refuses the point), and calls
    [fitBounds] otherwise. *)
Theorem FitBounds_throws_on_missing_coordinate
    (buses : list JSValue) (userLocation : JSValue) :
  buses <> [] -> truthy userLocation = true ->
  (FitBounds leb parseFloat buses userLocation = Throw <->
   exists v, v ∈ buses ++ [userLocation] /\ coordinate parseFloat v = None) /\
  FitBounds leb parseFloat buses userLocation <> Ok None.
Proof.
  intros Hne Hloc.
  destruct (mapM (coordinate parseFloat) (buses ++ [userLocation])) as [pts|] eqn:Hm.
  - assert (Hall : Forall (fun v => is_Some (coordinate parseFloat v))
                          (buses ++ [userLocation])).
    { apply (mapM_is_Some_1 (coordinate parseFloat)). by rewrite Hm. }
    destruct (FitBounds_accepts _ _ Hne Hloc Hall) as [box Hbox].
    rewrite Hbox. split; [|done]. split; [done|].
    intros (v & Hv & Hc). rewrite Forall_forall in Hall.
    destruct (Hall v Hv) as [p Hp]. congruence.
  - apply mapM_None_1, Exists_exists in Hm as (v & Hv & Hc).
    rewrite (FitBounds_rejects _ _ v Hne Hloc Hv Hc).
    split; [|done]. split; [by eauto|done].
Qed.

End FitBoundsEdges.

Lemma FitBounds_throws_on_missing_coordinate_witness :
  (Viewport.FitBounds Z.leb Viewport.parseFloat_integral
     [JS.JObj {[ "lat" := JS.JStr "1"; "lon" := JS.JStr "north" ]}]
     (JS.JObj {[ "lat" := JS.JNum 2; "lon" := JS.JNum 5 ]}) = JS.Throw <->
   exists v,
     v ∈ [JS.JObj {[ "lat" := JS.JStr "1"; "lon" := JS.JStr "north" ]}]
         ++ [JS.JObj {[ "lat" := JS.JNum 2; "lon" := JS.JNum 5 ]}] /\
     Viewport.coordinate Viewport.parseFloat_integral v = None) /\
  Viewport.FitBounds Z.leb Viewport.parseFloat_integral
     [JS.JObj {[ "lat" := JS.JStr "1"; "lon" := JS.JStr "north" ]}]
     (JS.JObj {[ "lat" := JS.JNum 2; "lon" := JS.JNum 5 ]}) <> JS.Ok None.
Proof.
  apply FitBounds_throws_on_missing_coordinate; [done | reflexivity].
Defined.

Section FitBoundsOrder.
Import JS Viewport.

Context {coord : Type}.
Variable leb : coord -> coord -> bool.
Variable parseFloat : JSValue -> option coord.
Hypothesis leb_total : forall a b, leb a b = true \/ leb b a = true.
Hypothesis leb_trans : forall a b c, leb a b = true -> leb b c = true -> leb a c = true.
Hypothesis leb_antisym : forall a b, leb a b = true -> leb b a = true -> a = b.

(** The box in terms of the values handed in: it covers the coordinate of
    each, and lies inside every box that does. *)
Lemma FitBounds_least_for_values (buses : list JSValue) (loc : JSValue) :
  buses <> [] -> truthy loc = true ->
  Forall (fun v => is_Some (coordinate parseFloat v)) (buses ++ [loc]) ->
  exists box,
    FitBounds leb parseFloat buses loc = Ok (Some (fitBounds box (50, 50))) /\
    (forall v p, v ∈ buses ++ [loc] -> coordinate parseFloat v = Some p ->
       covers leb box p) /\
    (forall c, (forall v p, v ∈ buses ++ [loc] -> coordinate parseFloat v = Some p ->
                  covers leb c p) -> inside leb box c).
Proof.
  intros Hne Hloc Hall.
  destruct (mapM_is_Some_2 (coordinate parseFloat) _ Hall) as [all Hm].
  apply mapM_Some_1 in Hm as Hf.
  apply Forall_app in Hall as [Hb Hl]. apply Forall_cons in Hl as [[u Hu] _].
  destruct (mapM_is_Some_2 (coordinate parseFloat) _ Hb) as [pts Hpts].
  assert (Hall' : all = pts ++ [u]).
  { apply mapM_Some_1 in Hpts.
    assert (Forall2 (fun v p => coordinate parseFloat v = Some p)
              (buses ++ [loc]) (pts ++ [u])) as Hf'
      by (apply Forall2_app; [done|by constructor]).
    apply mapM_Some_2 in Hf'.
    apply mapM_Some_2 in Hf. congruence. }
  subst all.
  unfold FitBounds. destruct buses as [|b0 buses]; [done|]. simpl length.
  rewrite Hloc. simpl orb. cbv iota.
  rewrite (mapT_coordinates _ _ _ Hpts), (coordinate_latlon _ _ _ Hu).
  simpl mbind. change ([raw u]) with (raw <$> [u]). rewrite <- fmap_app.
  destruct (pts ++ [u]) as [|q qs] eqn:Hq; [by destruct pts|].
  destruct (latLngBounds_least leb leb_total leb_trans q qs) as (b & Hb' & Hcov & Hmin).
  exists b. rewrite Hb'. split; [done|]. split.
  - intros v p Hv Hp. apply Hcov.
    apply list_elem_of_lookup_1 in Hv as [i Hi].
    destruct (Forall2_lookup_l _ _ _ _ _ Hf Hi) as (p' & Hp' & Hc).
    assert (p' = p) as -> by congruence. by eapply list_elem_of_lookup_2.
  - intros c Hc. apply Hmin. intros p Hp.
    apply list_elem_of_lookup_1 in Hp as [i Hi].
    destruct (Forall2_lookup_r _ _ _ _ _ Hf Hi) as (v & Hv & Hcv).
    apply (Hc v p); [|done]. by eapply list_elem_of_lookup_2.
Qed.

Lemma inside_antisym (b c : LatLngBounds coord) :
  inside leb b c -> inside leb c b -> b = c.
Proof.
  destruct b as [[a1 a2] [a3 a4]], c as [[c1 c2] [c3 c4]].
  intros (H1 & H2 & H3 & H4) (H5 & H6 & H7 & H8). simpl in *.
  by rewrite (leb_antisym _ _ H5 H1), (leb_antisym _ _ H2 H6),
    (leb_antisym _ _ H7 H3), (leb_antisym _ _ H4 H8).
Qed.

(** X5.  The effect depends on which vehicles there are, not on their
    order or on repetitions: two vehicle arrays with the same elements
    lead to the same call, the same silence, or an exception in both. *)
Theorem FitBounds_ignores_vehicle_order
    (buses buses' : list JSValue) (userLocation : JSValue) :
  (forall v, v ∈ buses <-> v ∈ buses') ->
  FitBounds leb parseFloat buses userLocation
  = FitBounds leb parseFloat buses' userLocation.
Proof.
  intros Hsame.
  destruct buses as [|b0 buses].
  { destruct buses' as [|b1 buses']; [done|].
    exfalso. eapply elem_of_nil, Hsame, list_elem_of_here. }
  destruct buses' as [|b1 buses'].
  { exfalso. eapply elem_of_nil, Hsame, list_elem_of_here. }
  destruct (truthy userLocation) eqn:Hloc.
  2:{ unfold FitBounds. by rewrite Hloc. }
  assert (Hsame' : forall v, v ∈ (b0 :: buses) ++ [userLocation]
                          <-> v ∈ (b1 :: buses') ++ [userLocation]).
  { intros v. rewrite !elem_of_app, Hsame. done. }
  destruct (mapM (coordinate parseFloat) ((b0 :: buses) ++ [userLocation]))
    as [pts|] eqn:Hm.
  - assert (Hall : Forall (fun v => is_Some (coordinate parseFloat v))
                          ((b0 :: buses) ++ [userLocation])).
    { apply (mapM_is_Some_1 (coordinate parseFloat)). by rewrite Hm. }
    assert (Hall' : Forall (fun v => is_Some (coordinate parseFloat v))
                           ((b1 :: buses') ++ [userLocation])).
    { rewrite Forall_forall in *. intros v Hv. by apply Hall, Hsame'. }
    destruct (FitBounds_least_for_values (b0 :: buses) userLocation)
      as (b & -> & Hcov & Hmin); [done..|].
    destruct (FitBounds_least_for_values (b1 :: buses') userLocation)
      as (b' & -> & Hcov' & Hmin'); [done..|].
    do 3 f_equal. apply inside_antisym.
    + apply Hmin. intros v p Hv. apply Hcov'. by apply Hsame'.
    + apply Hmin'. intros v p Hv. apply Hcov. by apply Hsame'.
  - apply mapM_None_1, Exists_exists in Hm as (v & Hv & Hc).
    rewrite (FitBounds_rejects leb parseFloat (b0 :: buses) userLocation v) by done.
    rewrite (FitBounds_rejects leb parseFloat (b1 :: buses') userLocation v);
      [done..| |done]. by apply Hsame'.
Qed.

End FitBoundsOrder.

Lemma FitBounds_ignores_vehicle_order_witness :
  Viewport.FitBounds Z.leb Viewport.parseFloat_integral
    [JS.JObj {[ "lat" := JS.JStr "1"; "lon" := JS.JStr "1" ]};
     JS.JObj {[ "lat" := JS.JStr "3"; "lon" := JS.JStr "-2" ]}]
    (JS.JObj {[ "lat" := JS.JNum 2; "lon" := JS.JNum 5 ]})
  = Viewport.FitBounds Z.leb Viewport.parseFloat_integral
    [JS.JObj {[ "lat" := JS.JStr "3"; "lon" := JS.JStr "-2" ]};
     JS.JObj {[ "lat" := JS.JStr "1"; "lon" := JS.JStr "1" ]}]
    (JS.JObj {[ "lat" := JS.JNum 2; "lon" := JS.JNum 5 ]}).
Proof.
  apply FitBounds_ignores_vehicle_order.
  - intros a b. lia.
  - intros a b c. lia.
  - intros a b. lia.
  - intros v. rewrite !elem_of_cons. tauto.
Defined.

(* ===================================================================== *)
(** ** More on the cascade *)
(* ===================================================================== *)

Section CascadeMore.
Import JS BusView.

Lemma run_cons (a : App) (e : Event) (es : list Event) :
  run a (e :: es) = run (step a e) es.
Proof. done. Qed.

Lemma locating_step (a : App) (e : Event) :
  locating (step a e) = snd (pending a e).
Proof.
  unfold step. destruct (handle a e) as [[s' sent] logs].
  destruct (commit (ui a) s') as [s'' more]. by destruct (pending a e).
Qed.

Lemma console_step (a : App) (e : Event) :
  console (step a e) = console a ++ snd (handle a e).
Proof.
  unfold step. destruct (handle a e) as [[s' sent] logs].
  destruct (commit (ui a) s') as [s'' more]. by destruct (pending a e).
Qed.

(** What a chain leaves of the dependencies: the route as it was, the
    direction as it was or empty. *)
Lemma settled_deps (q : Request) (r : Response) (s : State) :
  selectedRoute (settled q r s) = selectedRoute s /\
  (direction (settled q r s) = direction s \/ direction (settled q r s) = "").
Proof.
  unfold settled, chain. destruct r as [data|], q; simpl;
    unfold thenRoutes, thenDirections, thenStops, thenVehicles, thenPredictions,
      mbind, Throws_bind;
    repeat case_match; simplify_eq/=; auto.
Qed.

Lemma settled_userLocation (q : Request) (r : Response) (s : State) :
  userLocation (settled q r s) = userLocation s.
Proof.
  unfold settled, chain. destruct r as [data|], q; simpl;
    unfold thenRoutes, thenDirections, thenStops, thenVehicles, thenPredictions,
      mbind, Throws_bind;
    repeat case_match; simplify_eq/=; auto.
Qed.

(** No effect sends anything after a chain has run. *)
Lemma commit_settled (q : Request) (r : Response) (s : State) :
  snd (commit s (settled q r s)) = [].
Proof.
  destruct (settled_deps q r s) as [Hr [Hd|Hd]].
  - by rewrite commit_same_deps.
  - unfold commit, effectDirection. rewrite Hr, Hd, String.eqb_refl. simpl.
    rewrite andb_false_r. by destruct (negb _).
Qed.

Lemma issued_settle (a : App) (i : nat) (r : Response) :
  issued a (Settle i r) = [].
Proof.
  unfold issued.
  destruct (inflight a !! i) as [q|] eqn:Hq.
  - pose proof (settle_handle a i q r Hq) as Hh.
    destruct (handle a (Settle i r)) as [[s' sent] logs] eqn:Hh'. simpl in Hh.
    assert (sent = []) as ->.
    { unfold handle in Hh'. rewrite Hq in Hh'.
      by destruct (chain q r (ui a)) as [[? ?]|]; simplify_eq. }
    subst s'. by rewrite commit_settled.
  - unfold handle. rewrite Hq. by rewrite commit_same_deps.
Qed.

Lemma step_reset (a : App) :
  step a ClickReset = mkApp (resetApp (ui a)) (inflight a) (locating a) (console a).
Proof.
  unfold step. simpl. rewrite commit_no_route by done. simpl.
  by rewrite !app_nil_r.
Qed.

(** X6.  A request is sent only when the rider chooses a route other than
    the placeholder, chooses a direction while a route is selected, or
    presses Get Predictions with a stop selected.  Responses, the choice of
    a stop, Reset and the location answers send nothing. *)
Theorem requests_need_a_choice (a : App) (e : Event) :
  issued a e <> [] ->
  (exists v, e = ChooseRoute v /\ v <> "" /\ v <> selectedRoute (ui a)) \/
  (exists v, e = ChooseDirection v /\ v <> "" /\ v <> direction (ui a) /\
             selectedRoute (ui a) <> "") \/
  (e = ClickGetPredictions /\ selectedStop (ui a) <> "").
Proof.
  intros Hi. destruct e as [v|v|v| | |i r|la lo|].
  - left. exists v. split; [done|].
    unfold issued, commit, effectRoute, effectDirection in Hi. simpl in Hi.
    destruct (String.eqb_spec (selectedRoute (ui a)) v) as [->|Hne].
    + simpl in Hi. by rewrite String.eqb_refl in Hi.
    + split; [|done]. intros ->. by simpl in Hi.
  - right. left. exists v. split; [done|].
    unfold issued, commit, effectRoute, effectDirection in Hi. simpl in Hi.
    rewrite String.eqb_refl in Hi. simpl in Hi.
    destruct (String.eqb_spec (direction (ui a)) v) as [->|Hne]; [done|].
    simpl in Hi. split; [|split; [done|]].
    + intros ->. by rewrite andb_false_r in Hi.
    + intros Hr. apply nonempty_false in Hr. by rewrite Hr in Hi.
  - exfalso. apply Hi. unfold issued. simpl. by rewrite commit_same_deps.
  - right. right. split; [done|].
    unfold issued, handle, getPredictions in Hi.
    rewrite commit_same_deps in Hi by done. simpl in Hi.
    intros Hs. apply nonempty_false in Hs. by rewrite Hs in Hi.
  - exfalso. apply Hi. unfold issued. simpl. by rewrite commit_no_route.
  - exfalso. apply Hi, issued_settle.
  - exfalso. apply Hi. unfold issued, handle.
    destruct (locating a); simpl; by rewrite commit_same_deps.
  - exfalso. apply Hi. unfold issued, handle.
    destruct (locating a); simpl; by rewrite commit_same_deps.
Qed.

Lemma requests_need_a_choice_witness :
  (exists v, ChooseDirection "Northbound" = ChooseRoute v /\ v <> "" /\
             v <> selectedRoute (ui (run mount Scenario.directionsOf22))) \/
  (exists v, ChooseDirection "Northbound" = ChooseDirection v /\ v <> "" /\
             v <> direction (ui (run mount Scenario.directionsOf22)) /\
             selectedRoute (ui (run mount Scenario.directionsOf22)) <> "") \/
  (ChooseDirection "Northbound" = ClickGetPredictions /\
   selectedStop (ui (run mount Scenario.directionsOf22)) <> "").
Proof.
  apply requests_need_a_choice. vm_compute. discriminate.
Defined.

(** X7.  A response takes its request out of the list in flight and puts
    nothing in; so once the rider stops, answering the requests one by
    one, in any number equal to those in flight, leaves none. *)
Theorem responses_drain_the_requests :
  (forall (a : App) (i : nat) (r : Response),
     inflight (step a (Settle i r)) = delete i (inflight a)) /\
  (forall (rs : list Response) (a : App),
     length rs = length (inflight a) ->
     inflight (run a (Settle 0 <$> rs)) = []).
Proof.
  assert (Hone : forall a i r, inflight (step a (Settle i r)) = delete i (inflight a)).
  { intros a i r. rewrite inflight_step, issued_settle. simpl. apply app_nil_r. }
  split; [exact Hone|].
  induction rs as [|r rs IH]; intros a Hlen; simpl in *.
  - by destruct (inflight a).
  - apply IH. rewrite Hone. destruct (inflight a); simpl in *; [done|]. lia.
Qed.

Lemma responses_drain_the_requests_witness :
  inflight (run (run mount Scenario.northbound22)
                (Settle 0 <$> [Rejected; Resolved JNull])) = [].
Proof.
  destruct responses_drain_the_requests as [_ H]. by apply H.
Defined.

(** X8.  Choosing a route (not the placeholder, not the current one)
    always asks for its directions.  If a direction is still selected it
    also asks, at once, for the stops of the new route in that old
    direction and for the vehicles of the new route, and clears the stop,
    the predictions and both flags; if no direction is selected it writes
    the route cell only. *)
Theorem route_choice_reuses_old_direction (a : App) (r : string) :
  r <> "" -> r <> selectedRoute (ui a) ->
  issued a (ChooseRoute r)
  = GetDirections r ::
    (if nonempty (direction (ui a))
     then [GetStops r (direction (ui a)); GetVehicles r] else []) /\
  (direction (ui a) <> "" ->
   let s := ui (step a (ChooseRoute r)) in
   selectedStop s = "" /\ predictions s = empty /\
   predictionAttempted s = false /\ stopsLoaded s = false) /\
  (direction (ui a) = "" ->
   ui (step a (ChooseRoute r)) = setSelectedRoute r (ui a)).
Proof.
  intros Hr Hne.
  assert (Hc : commit (ui a) (setSelectedRoute r (ui a)) =
               (fst (effectDirection (setSelectedRoute r (ui a))),
                GetDirections r :: snd (effectDirection (setSelectedRoute r (ui a))))).
  { unfold commit, effectRoute. simpl.
    apply not_eq_sym, String.eqb_neq in Hne. rewrite Hne. simpl.
    apply nonempty_true in Hr. rewrite Hr.
    by destruct (effectDirection _). }
  unfold effectDirection in Hc. simpl in Hc.
  apply nonempty_true in Hr as Hr'. rewrite Hr' in Hc. simpl in Hc.
  split; [|split].
  - unfold issued. simpl. rewrite Hc. by destruct (nonempty (direction (ui a))).
  - intros Hd s. subst s. rewrite ui_step. simpl. rewrite Hc.
    apply nonempty_true in Hd. by rewrite Hd.
  - intros Hd. rewrite ui_step. simpl. rewrite Hc.
    apply nonempty_false in Hd. by rewrite Hd.
Qed.

Lemma route_choice_reuses_old_direction_witness :
  issued (run mount Scenario.rider) (ChooseRoute "9")
  = GetDirections "9" ::
    (if nonempty (direction (ui (run mount Scenario.rider)))
     then [GetStops "9" (direction (ui (run mount Scenario.rider))); GetVehicles "9"]
     else []).
Proof.
  apply route_choice_reuses_old_direction; by vm_compute.
Defined.

(** X9.  Choosing a stop writes the stop cell and nothing else: no
    request is sent, and the predictions and the prediction-attempted flag
    of the previous stop stay as they are. *)
Theorem stop_choice_changes_nothing_else (a : App) (v : string) :
  step a (ChooseStop v)
  = mkApp (setSelectedStop v (ui a)) (inflight a) (locating a) (console a).
Proof.
  unfold step. simpl. rewrite commit_same_deps by done. simpl.
  by rewrite !app_nil_r.
Qed.

(** X10.  Reset is idempotent, and it cancels nothing: the requests in
    flight stay in flight, and a response that arrives after Reset is
    applied to the reset state like any other; a usable field goes into its
    collection again. *)
Theorem reset_keeps_requests_alive :
  (forall a : App, step (step a ClickReset) ClickReset = step a ClickReset) /\
  (forall a : App, inflight (step a ClickReset) = inflight a) /\
  (forall (a : App) (i : nat) (q : Request) (r : Response),
     inflight a !! i = Some q ->
     ui (step (step a ClickReset) (Settle i r)) = settled q r (resetApp (ui a))) /\
  (forall (a : App) (i : nat) (q : Request) (data : JSValue) (l : list JSValue),
     inflight a !! i = Some q ->
     payload q data = Ok (JArr l) ->
     collection q (ui (step (step a ClickReset) (Settle i (Resolved data)))) = JArr l).
Proof.
  assert (Hset : forall a i q r, inflight a !! i = Some q ->
            ui (step (step a ClickReset) (Settle i r)) = settled q r (resetApp (ui a))).
  { intros a i q r Hq. rewrite step_reset. by rewrite (ui_settle _ i q). }
  split; [|split; [|split]].
  - intros a. by rewrite !step_reset.
  - intros a. by rewrite step_reset.
  - exact Hset.
  - intros a i q data l Hq Hp. rewrite (Hset _ _ _ _ Hq).
    unfold settled, chain, payload in *.
    destruct q; simpl in *;
      unfold thenRoutes, thenDirections, thenStops, thenVehicles, thenPredictions,
        or_else, mbind, Throws_bind in *;
      repeat case_match; simplify_eq/=; try done.
    by rewrite Hp in *.
Qed.

Lemma reset_keeps_requests_alive_witness :
  collection (GetVehicles "22")
    (ui (step (step (run mount Scenario.northbound22) ClickReset)
              (Settle 1 (Resolved (Scenario.body "vehicle" Scenario.vehicleList)))))
  = Scenario.vehicleList.
Proof.
  destruct reset_keeps_requests_alive as (_ & _ & _ & H).
  apply (H _ 1%nat); by vm_compute.
Defined.

(** *** Invariants *)

Lemma run_invariant (P : App -> Prop) :
  (forall a e, P a -> P (step a e)) -> forall es a, P a -> P (run a es).
Proof.
  intros Hstep. induction es as [|e es IH]; intros a Ha; [done|].
  rewrite run_cons. by apply IH, Hstep.
Qed.

(** Every request an event sends has passed its guard, and none is the
    routes request. *)
Lemma issued_guarded (a : App) (e : Event) :
  Forall (fun q => Invariant.guarded q /\ q <> GetRoutes) (issued a e).
Proof.
  unfold issued. destruct (handle a e) as [[s' sent] logs] eqn:Hh.
  apply Forall_app. split.
  - destruct e; simpl in Hh; unfold getPredictions in Hh;
      repeat case_match; simplify_eq/=; try by constructor.
    constructor; [|by constructor]. split; [|done]. by apply nonempty_true.
  - unfold commit, effectRoute, effectDirection.
    repeat case_match; simplify_eq/=;
      repeat match goal with
             | H : _ && _ = true |- _ => apply andb_true_iff in H as [? ?]
             | H : nonempty _ = true |- _ => apply nonempty_true in H
             end;
      repeat (constructor; [by repeat split|]); by constructor.
Qed.

Lemma handle_other_fields (a : App) (e : Event) :
  (forall i r, e <> Settle i r) ->
  let s := fst (fst (handle a e)) in
  routes s = routes (ui a) /\
  (directions s = directions (ui a) \/ directions s = empty) /\
  (stops s = stops (ui a) \/ stops s = empty) /\
  (predictions s = predictions (ui a) \/ predictions s = empty) /\
  (vehicles s = vehicles (ui a) \/ vehicles s = empty).
Proof.
  intros He. destruct e as [v|v|v| | |i r|la lo|]; simpl; auto 10.
  - by exfalso; eapply He.
  - destruct (locating a); simpl; auto 10.
  - destruct (locating a); simpl; auto 10.
Qed.

Lemma settled_routes_other (q : Request) (r : Response) (s : State) :
  q <> GetRoutes -> routes (settled q r s) = routes s.
Proof.
  intros Hq. unfold settled, chain. destruct r as [data|], q; simpl; try done;
    unfold thenDirections, thenStops, thenVehicles, thenPredictions,
      mbind, Throws_bind;
    repeat case_match; simplify_eq/=; done.
Qed.

Lemma not_settle_or_settle (e : Event) :
  (exists i r, e = Settle i r) \/ (forall i r, e <> Settle i r).
Proof. destruct e; by eauto. Qed.

Lemma step_keeps_routes (a : App) (e : Event) :
  GetRoutes ∉ inflight a ->
  (GetRoutes ∉ inflight (step a e)) /\ routes (ui (step a e)) = routes (ui a).
Proof.
  intros Hn. split.
  - rewrite inflight_step. intros Hin. apply elem_of_app in Hin as [Hin|Hin].
    + apply Hn. destruct e; simpl in Hin; try done.
      by eapply list_elem_of_delete_inv.
    + pose proof (issued_guarded a e) as Hg. rewrite Forall_forall in Hg.
      by destruct (Hg _ Hin).
  - rewrite ui_step.
    destruct (commit_frame (ui a) (fst (fst (handle a e)))) as (-> & _).
    destruct (not_settle_or_settle e) as [(i & r & ->)|He].
    + destruct (inflight a !! i) as [q|] eqn:Hq.
      * rewrite (settle_handle _ _ _ _ Hq). apply settled_routes_other.
        intros ->. apply Hn. by eapply list_elem_of_lookup_2.
      * unfold handle. by rewrite Hq.
    + by destruct (handle_other_fields a e He) as (-> & _).
Qed.

(** X11.  The routes are requested at mount only.  Once that request has
    been answered nothing the rider or the network does changes the route
    list again, and nothing asks for it again: it survives Reset, and a
    list that came back empty stays empty. *)
Theorem routes_load_once (a : App) (es : list Event) :
  GetRoutes ∉ inflight a ->
  routes (ui (run a es)) = routes (ui a) /\ (GetRoutes ∉ inflight (run a es)).
Proof.
  intros Hn.
  apply (run_invariant
           (fun b => routes (ui b) = routes (ui a) /\ (GetRoutes ∉ inflight b)));
    [|done].
  intros b e [Hr Hb]. destruct (step_keeps_routes b e Hb) as [? ->]. by split.
Qed.

Lemma routes_load_once_witness :
  routes (ui (run (run mount (take 1 Scenario.rider))
                  (drop 1 Scenario.rider ++ [ClickReset])))
  = routes (ui (run mount (take 1 Scenario.rider))) /\
  (GetRoutes ∉ inflight (run (run mount (take 1 Scenario.rider))
                             (drop 1 Scenario.rider ++ [ClickReset]))).
Proof.
  apply routes_load_once. vm_compute. apply not_elem_of_nil.
Defined.

Lemma settled_defined (q : Request) (r : Response) (s : State) :
  Invariant.defined s -> Invariant.defined (settled q r s).
Proof.
  intros (H1 & H2 & H3 & H4 & H5). unfold Invariant.defined, settled, chain.
  destruct r as [data|], q; simpl;
    unfold thenRoutes, thenDirections, thenStops, thenVehicles, thenPredictions,
      or_else, mbind, Throws_bind;
    repeat case_match; simplify_eq/=; done.
Qed.

Lemma step_defined (a : App) (e : Event) :
  Invariant.defined (ui a) -> Invariant.defined (ui (step a e)).
Proof.
  intros Hd. rewrite ui_step.
  assert (Hh : Invariant.defined (fst (fst (handle a e)))).
  { destruct (not_settle_or_settle e) as [(i & r & ->)|He].
    - destruct (inflight a !! i) as [q|] eqn:Hq.
      + rewrite (settle_handle _ _ _ _ Hq). by apply settled_defined.
      + unfold handle. by rewrite Hq.
    - destruct Hd as (H1 & H2 & H3 & H4 & H5).
      destruct (handle_other_fields a e He) as (Hr & Hds & Hs & Hp & Hv).
      unfold Invariant.defined. rewrite Hr.
      split; [done|]. split; [by destruct Hds as [-> | ->]|].
      split; [by destruct Hs as [-> | ->]|].
      split; [by destruct Hp as [-> | ->]|]. by destruct Hv as [-> | ->]. }
  destruct Hh as (H1 & H2 & H3 & H4 & H5).
  destruct (commit_frame (ui a) (fst (fst (handle a e))))
    as (Hr & _ & Hds & _ & Hs & Hv & _).
  unfold Invariant.defined. rewrite Hr, Hds, Hs, Hv.
  repeat split; try done.
  unfold commit, effectDirection. by repeat case_match; simplify_eq/=.
Qed.

(** X12.  Whatever arrives and whatever is chosen, the route list is an
    array and no collection is ever [undefined], [null] or otherwise
    falsy: reading [.length] of any of the five collections cannot
    throw. *)
Theorem collections_always_defined :
  (forall (a : App) (es : list Event),
     Invariant.defined (ui a) -> Invariant.defined (ui (run a es))) /\
  (forall es : list Event, Invariant.defined (ui (run mount es))) /\
  (forall (es : list Event) (q : Request),
     exists n, length_of (collection q (ui (run mount es))) = Ok n).
Proof.
  assert (H : forall a es, Invariant.defined (ui a) -> Invariant.defined (ui (run a es))).
  { intros a es. apply (run_invariant (fun b => Invariant.defined (ui b))).
    apply step_defined. }
  split; [exact H|]. split.
  - intros es. by apply H.
  - intros es q. destruct (H mount es) as (Hr & Hd & Hs & Hp & Hv); [done|].
    destruct q; simpl;
      match goal with |- exists n, length_of ?c = _ => destruct c; by eauto end.
Qed.

Lemma collections_always_defined_witness :
  Invariant.defined (ui (run mount Scenario.rider)).
Proof.
  destruct collections_always_defined as (H & _). by apply H.
Defined.

(** X13.  Every request in flight carries the selection its effect or
    handler tested: directions, stops and vehicles requests a non-empty
    route, stops requests a non-empty direction as well, predictions
    requests a non-empty stop. *)
Theorem requests_carry_their_selection :
  (forall (a : App) (es : list Event),
     Forall Invariant.guarded (inflight a) ->
     Forall Invariant.guarded (inflight (run a es))) /\
  (forall es : list Event, Forall Invariant.guarded (inflight (run mount es))).
Proof.
  assert (H : forall a es, Forall Invariant.guarded (inflight a) ->
                           Forall Invariant.guarded (inflight (run a es))).
  { intros a es.
    apply (run_invariant (fun b => Forall Invariant.guarded (inflight b))).
    intros b e Hb. rewrite inflight_step. apply Forall_app. split.
    - destruct e; simpl; try done. by apply Forall_delete.
    - eapply Forall_impl; [apply issued_guarded|]. by intros q [? _]. }
  split; [exact H|]. intros es. apply H. by repeat constructor.
Qed.

Lemma requests_carry_their_selection_witness :
  Forall Invariant.guarded (inflight (run (run mount Scenario.northbound22) [ChooseRoute "9"])).
Proof.
  destruct requests_carry_their_selection as (H & _). apply H.
  vm_compute. repeat constructor; discriminate.
Defined.

Lemma step_unlocated (a : App) (e : Event) :
  locating a = false /\ userLocation (ui a) = JNull ->
  locating (step a e) = false /\ userLocation (ui (step a e)) = JNull.
Proof.
  intros [Hl Hu]. split.
  - rewrite locating_step. by destruct e.
  - rewrite ui_step.
    destruct (commit_frame (ui a) (fst (fst (handle a e)))) as (_&_&_&_&_&_&->).
    destruct e as [v|v|v| | |i r|la lo|]; simpl; try done.
    + destruct (inflight a !! i) as [q|] eqn:Hq; [|done].
      pose proof (settle_handle a i q r Hq) as Hh. unfold handle in Hh.
      rewrite Hq in Hh. rewrite Hh. by rewrite settled_userLocation.
    + by rewrite Hl.
    + by rewrite Hl.
Qed.

(** X14.  The location is asked for once, at mount, and answered at most
    once.  After Reset, once that answer has come, the user location is
    [null] for good: no later event sets it, and [FitBounds] never again
    asks the map for anything. *)
Theorem location_is_not_asked_again :
  (forall (a : App) (es : list Event),
     locating a = false -> locating (run a es) = false) /\
  (forall (a : App) (es : list Event),
     locating a = false ->
     userLocation (ui (run (step a ClickReset) es)) = JNull) /\
  (forall (a : App) (es : list Event) (coord : Type)
          (leb : coord -> coord -> bool) (parseFloat : JSValue -> option coord)
          (buses : list JSValue),
     locating a = false ->
     Viewport.FitBounds leb parseFloat buses
       (userLocation (ui (run (step a ClickReset) es))) = Ok None).
Proof.
  assert (H : forall a es, locating a = false ->
            userLocation (ui (run (step a ClickReset) es)) = JNull).
  { intros a es Hl.
    apply (run_invariant (fun b => locating b = false /\ userLocation (ui b) = JNull)
             step_unlocated).
    by rewrite step_reset. }
  split; [|split].
  - intros a es. apply (run_invariant (fun b => locating b = false)).
    intros b e Hb. rewrite locating_step. by destruct e.
  - exact H.
  - intros a es coord leb parseFloat buses Hl. rewrite (H a es Hl).
    unfold Viewport.FitBounds. simpl. by rewrite orb_true_r.
Qed.

Lemma location_is_not_asked_again_witness :
  userLocation
    (ui (run (step (run mount [LocationFailed]) ClickReset) Scenario.rider)) = JNull.
Proof.
  destruct location_is_not_asked_again as (_ & H & _). by apply H.
Defined.

(** X15.  The effects settle in one pass: the setters the direction
    effect calls change no dependency, so the render they cause runs no
    effect and sends nothing. *)
Theorem effects_settle_in_one_pass (old new : State) :
  commit new (fst (commit old new)) = (fst (commit old new), []).
Proof.
  destruct (commit_frame old new) as (_ & Hr & _ & Hd & _).
  by apply commit_same_deps.
Qed.

(** X16.  A stops or vehicles response is applied when it arrives,
    whatever is selected by then, even if no direction is selected any
    more: [stops] takes the body's [stops] field (the empty sequence if it
    is absent or falsy, or if the request failed) and the stops-loaded flag
    is set; [vehicles] takes the [vehicle] field likewise. *)
Theorem stops_and_vehicles_applied_on_arrival :
  (forall (a : App) (i : nat) (rt d : string) (r : Response),
     inflight a !! i = Some (GetStops rt d) ->
     let s := ui (step a (Settle i r)) in
     stopsLoaded s = true /\
     stops s = match r with
               | Resolved data =>
                   match payload (GetStops rt d) data with
                   | Ok v => or_else v empty
                   | Throw => empty
                   end
               | Rejected => empty
               end) /\
  (forall (a : App) (i : nat) (rt : string) (r : Response),
     inflight a !! i = Some (GetVehicles rt) ->
     vehicles (ui (step a (Settle i r)))
     = match r with
       | Resolved data =>
           match payload (GetVehicles rt) data with
           | Ok v => or_else v empty
           | Throw => empty
           end
       | Rejected => empty
       end).
Proof.
  split.
  - intros a i rt d r Hq s. subst s.
    by rewrite (ui_settle _ _ _ _ Hq), settled_stops.
  - intros a i rt r Hq. by rewrite (ui_settle _ _ _ _ Hq), settled_vehicles.
Qed.

Lemma stops_and_vehicles_applied_on_arrival_witness :
  vehicles (ui (step (run mount (Scenario.northbound22 ++ [ChooseRoute ""]))
                     (Settle 1 (Resolved (Scenario.body "vehicle" Scenario.vehicleList)))))
  = Scenario.vehicleList.
Proof.
  destruct stops_and_vehicles_applied_on_arrival as (_ & H).
  rewrite (H _ 1%nat "22"); by vm_compute.
Defined.

(** *** The prediction section *)

Lemma stops_request_clears (a : App) (e : Event) (rt d : string) :
  GetStops rt d ∈ issued a e ->
  let s := ui (step a e) in
  selectedStop s = "" /\ predictions s = empty /\ predictionAttempted s = false.
Proof.
  intros Hin s. subst s. rewrite ui_step. unfold issued in Hin.
  destruct (handle a e) as [[s' sent] logs] eqn:Hh. simpl.
  apply elem_of_app in Hin as [Hin|Hin].
  - destruct e; simpl in Hh; unfold getPredictions in Hh;
      repeat case_match; simplify_eq/=;
      repeat (apply elem_of_cons in Hin as [Hin|Hin]; [discriminate Hin|]);
      by apply elem_of_nil in Hin.
  - unfold commit, effectRoute, effectDirection in *.
    repeat case_match; simplify_eq/=; try done;
      repeat (apply elem_of_cons in Hin as [Hin|Hin]; [discriminate Hin|]);
      by apply elem_of_nil in Hin.
Qed.

Lemma commit_keeps_attempted_down (old new : State) :
  predictionAttempted new = false -> predictionAttempted (fst (commit old new)) = false.
Proof.
  intros H. unfold commit, effectDirection.
  by repeat case_match; simplify_eq/=.
Qed.

Lemma attempted_raised_by_predictions_only (a : App) (e : Event) :
  predictionAttempted (ui a) = false -> predictionAttempted (ui (step a e)) = true ->
  exists i data sid rt,
    e = Settle i (Resolved data) /\ inflight a !! i = Some (GetPredictions sid rt).
Proof.
  intros H0 H1. rewrite ui_step in H1.
  destruct (predictionAttempted (fst (fst (handle a e)))) eqn:Hh.
  2:{ by rewrite commit_keeps_attempted_down in H1. }
  clear H1. destruct e as [v|v|v| | |i r|la lo|]; simpl in Hh; try congruence.
  - destruct (inflight a !! i) as [q|] eqn:Hq; [|simpl in Hh; congruence].
    pose proof (settle_handle a i q r Hq) as Hs. unfold handle in Hs.
    rewrite Hq in Hs. rewrite Hs in Hh. clear Hs.
    unfold settled, chain in Hh. destruct r as [data|], q; simpl in Hh;
      unfold thenRoutes, thenDirections, thenStops, thenVehicles, thenPredictions,
        mbind, Throws_bind in Hh;
      repeat case_match; simplify_eq/=; try congruence; by eauto 6.
  - destruct (locating a); simpl in Hh; congruence.
  - destruct (locating a); simpl in Hh; congruence.
Qed.

Lemma predictionSection_message (s : State) :
  Display.predictionSection s = Display.NoActiveBuses <->
  predictionAttempted s = true /\ selectedStop s <> "" /\
  exists n, length_of (predictions s) = Ok n /\ greater_than_zero n = Some false.
Proof.
  unfold Display.predictionSection. rewrite <- nonempty_true.
  destruct (length_of (predictions s)) as [n|].
  2:{ split; [done|]. by intros (_ & _ & n & [=] & _). }
  destruct (greater_than_zero n) as [[]|] eqn:Hn.
  - split.
    + destruct (predictions s); try done. by destruct (Viewport.mapT _ _).
    + intros (_ & _ & m & [= <-] & ?). congruence.
  - destruct (predictionAttempted s), (nonempty (selectedStop s)); simpl;
      split; try done; try (by intros (? & ? & _)); by eauto.
  - split; [done|]. intros (_ & _ & m & [= <-] & ?). congruence.
Qed.

(** X17.  The "no active buses" message needs an empty prediction list, a
    selected stop and the prediction-attempted flag, and that flag is raised
    only by a predictions response that resolved.  Every event that starts
    a stops fetch blanks the section.  Choosing another stop hides nothing:
    a non-empty prediction list is shown as before, under the new stop. *)
Theorem prediction_section_follows_the_flag :
  (forall (s : State) (l : list JSValue),
     predictions s = JArr l ->
     (Display.predictionSection s = Display.NoActiveBuses <->
      l = [] /\ predictionAttempted s = true /\ selectedStop s <> "")) /\
  (forall (a : App) (e : Event),
     predictionAttempted (ui a) = false ->
     predictionAttempted (ui (step a e)) = true ->
     exists i data sid rt,
       e = Settle i (Resolved data) /\
       inflight a !! i = Some (GetPredictions sid rt)) /\
  (forall (a : App) (e : Event) (rt d : string),
     GetStops rt d ∈ issued a e ->
     Display.predictionSection (ui (step a e)) = Display.Blank) /\
  (forall (a : App) (v : string) (p : JSValue) (l : list JSValue),
     predictions (ui a) = JArr (p :: l) ->
     Display.predictionSection (ui (step a (ChooseStop v)))
     = Display.predictionSection (ui a)).
Proof.
  split; [|split; [exact attempted_raised_by_predictions_only|split]].
  - intros s l Hl. rewrite predictionSection_message, Hl. simpl. split.
    + intros (Ha & Hs & n & [= <-] & Hn). repeat split; [|done..].
      destruct l; [done|]. simpl in Hn. by vm_compute in Hn.
    + intros (-> & Ha & Hs). by eauto 6.
  - intros a e rt d Hin.
    destruct (stops_request_clears a e rt d Hin) as (Hs & Hp & Ha).
    unfold Display.predictionSection. by rewrite Hp, Ha.
  - intros a v p l Hp. rewrite ui_step. simpl.
    rewrite commit_same_deps by done. simpl.
    unfold Display.predictionSection. simpl. by rewrite Hp.
Qed.

Lemma prediction_section_follows_the_flag_witness :
  Display.predictionSection (ui (step (run mount Scenario.rider) (ChooseDirection "Southbound")))
  = Display.Blank.
Proof.
  destruct prediction_section_follows_the_flag as (_ & _ & H & _).
  apply (H _ _ "22" "Southbound"). vm_compute. apply list_elem_of_here.
Defined.






Example rider_sees_one_line :
  Display.predictionSection (ui (run mount Scenario.rider))
  = Display.Upcoming [(JStr "22", JStr "Northbound", "2:10 PM")].
Proof. by vm_compute. Qed.

(** *** The console *)

(** X19.  Only failures write to the console, and not all of them: a
    failed stops or vehicles request is silent.  A line appears only when
    the location query fails or when a routes, directions or predictions
    request is rejected or its callback throws. *)
Theorem console_records_some_failures :
  (forall (a : App) (e : Event),
     console (step a e) <> console a ->
     e = LocationFailed \/
     exists i r q,
       e = Settle i r /\ inflight a !! i = Some q /\
       (q = GetRoutes \/ (exists rt, q = GetDirections rt) \/
        (exists sid rt, q = GetPredictions sid rt)) /\
       (r = Rejected \/ exists data, r = Resolved data /\ onFulfilled q data (ui a) = Throw)) /\
  (forall (a : App) (i : nat) (q : Request) (r : Response),
     inflight a !! i = Some q ->
     (exists rt d, q = GetStops rt d) \/ (exists rt, q = GetVehicles rt) ->
     console (step a (Settle i r)) = console a).
Proof.
  split.
  - intros a e Hc. rewrite console_step in Hc.
    assert (Hl : snd (handle a e) <> []) by (intros E; by rewrite E, app_nil_r in Hc).
    clear Hc. destruct e as [v|v|v| | |i r|la lo|]; simpl in Hl; try done.
    + right. destruct (inflight a !! i) as [q|] eqn:Hq; [|done].
      exists i, r, q. split; [done|]. split; [done|].
      unfold chain in Hl. destruct r as [data|].
      * destruct (onFulfilled q data (ui a)) eqn:Hf; [done|].
        split; [|by eauto]. destruct q; simpl in Hl; try done; by eauto.
      * split; [|by left]. destruct q; simpl in Hl; try done; by eauto.
    + by destruct (locating a).
    + by left.
  - intros a i q r Hq Hk. rewrite console_step. unfold handle. rewrite Hq.
    unfold chain.
    destruct Hk as [(rt & d & ->)|(rt & ->)]; destruct r as [data|]; simpl;
      repeat case_match; simplify_eq/=; by rewrite app_nil_r.
Qed.

Lemma console_records_some_failures_witness :
  console (step (run mount Scenario.northbound22) (Settle 0 Rejected))
  = console (run mount Scenario.northbound22).
Proof.
  destruct console_records_some_failures as (_ & H).
  apply (H _ _ (GetStops "22" "Northbound")); [by vm_compute|]. left. by eauto.
Defined.

End CascadeMore.

(* ===================================================================== *)
(** ** The page *)
(* ===================================================================== *)

Section PageProps.
Import Page.




End PageProps.
